(** * snapshot/fuchsia/process_reader.cc

    A shallow embedding of crashpad's Fuchsia [ProcessReader]: the
    initialization state machine, the lazily cached module list and the walk
    over the dynamic loader's [link_map] list in the memory of the target
    process. *)

From Stdlib Require Import ZArith List String Ascii Bool Lia.
From coqutil Require Import Byte Word.LittleEndianList.
Import ListNotations.
Local Open Scope string_scope.
Local Open Scope list_scope.
Local Open Scope Z_scope.

(** ** Machine integers

    Fuchsia targets are LP64 and little-endian: [uintptr_t] and [zx_vaddr_t]
    are eight bytes wide and address arithmetic wraps at [2^64]. *)

Definition zx_handle_t := Z.
Definition zx_vaddr_t := Z.

Definition sizeof_uintptr_t : nat := 8.

Definition wrap (z : Z) : Z := z mod 2 ^ 64.

(** ** Collaborators of the reader *)

(** Modelled from the spec: the remote memory accessor
    ([ProcessMemoryFuchsia], util/process) is not part of this file.  It is a
    capability with two fallible operations, [read(address, length) -> bytes
    or failure] and [read_c_string(address) -> string or failure]; a
    successful [Read] fills exactly the requested number of bytes.
    [ReadCString(address, &string)] is called on an empty string; it yields
    whether it succeeded together with what it left in the string, which
    after a failure is whatever the accessor had stored by then. *)
Record ProcessMemory := {
  Read : Z -> nat -> option (list byte);
  ReadCString : Z -> bool * string;
  Read_size : forall address size buffer,
      Read address size = Some buffer -> List.length buffer = size
}.

(** Modelled from the spec: the process-property collaborator
    ([zx_object_get_property]) and the address space behind each process
    handle.  Both properties are single fallible calls; [None] stands for a
    status other than [ZX_OK]. *)
Record Kernel := {
  ZX_PROP_NAME : zx_handle_t -> option string;
  ZX_PROP_PROCESS_DEBUG_ADDR : zx_handle_t -> option Z;
  address_space : zx_handle_t -> ProcessMemory
}.

(** The field offsets that the code takes from <link.h> with [offsetof]. *)
Class LinkAbi := {
  k_r_debug_map_offset : Z;
  k_link_map_addr_offset : Z;
  k_link_map_next_offset : Z;
  k_link_map_name_offset : Z
}.

(** [Read(address, sizeof(x), &x)] for a pointer-sized [x]. *)
Definition ReadWord (mem : ProcessMemory) (address : Z) : option Z :=
  option_map le_combine (Read mem address sizeof_uintptr_t).

(** ** Data of the reader *)

(** Modelled from the spec: the accessor object [ProcessMemoryFuchsia].  It
    is constructed unbound and [Initialize] binds it to a process handle,
    reporting success. *)
Record ProcessMemoryFuchsia := { pm_process_ : zx_handle_t }.

Definition ZX_HANDLE_INVALID : zx_handle_t := 0.

Definition ProcessMemoryFuchsia_new : ProcessMemoryFuchsia :=
  {| pm_process_ := ZX_HANDLE_INVALID |}.

Definition ProcessMemoryFuchsia_Initialize
    (pm : ProcessMemoryFuchsia) (process : zx_handle_t)
    : bool * ProcessMemoryFuchsia :=
  (true, {| pm_process_ := process |}).

(** Modelled from the spec: the memory-range view ([ProcessMemoryRange],
    util/process), as [Initialize(memory, is_64_bit)] sets it up. *)
Record ProcessMemoryRange := {
  range_memory_ : ProcessMemoryFuchsia;
  range_is_64_bit_ : bool
}.

(** Modelled from the spec: the module binary reader ([ElfImageReader],
    snapshot/elf), as [Initialize(memory_range, address)] sets it up; the
    range is the position of the referenced object in
    [process_memory_ranges_].  What it parses is outside this file. *)
Record ElfImageReader := {
  elf_memory_ : nat;
  elf_ehdr_address_ : zx_vaddr_t
}.

(** [ProcessReader::Module].  [reader] is a non-owning pointer into
    [module_readers_], kept as the position of the pointee. *)
Record ProcessReader_Module := {
  name : string;
  reader : nat
}.

(** Modelled from the spec: the three states of [InitializationStateDcheck]
    (util/misc), [Uninitialized -> Initializing -> Valid]. *)
Inductive InitializationState := Uninitialized | Initializing | Valid.

Record ProcessReader := {
  modules_ : list ProcessReader_Module;
  module_readers_ : list ElfImageReader;
  process_memory_ranges_ : list ProcessMemoryRange;
  process_memory_ : option ProcessMemoryFuchsia;
  process_ : zx_handle_t;
  initialized_modules_ : bool;
  initialized_ : InitializationState
}.

(** The reader together with the diagnostic channel written by [LOG(ERROR)]. *)
Record State := {
  this : ProcessReader;
  log : list string
}.

(** ** Control: state passing with fatal assertions *)

Inductive Outcome (A : Type) :=
| Returns (a : A) (s : State)
| Fatal
| OutOfFuel.
Arguments Returns {A} a s.
Arguments Fatal {A}.
Arguments OutOfFuel {A}.

Definition M (A : Type) := State -> Outcome A.

Definition ret {A} (a : A) : M A := fun s => Returns a s.

Definition bind {A B} (m : M A) (k : A -> M B) : M B :=
  fun s => match m s with
           | Returns a s' => k a s'
           | Fatal => Fatal
           | OutOfFuel => OutOfFuel
           end.

Notation "x <- m ;; k" := (bind m (fun x => k))
  (at level 61, m at next level, right associativity).
Notation "m ;; k" := (bind m (fun _ => k))
  (at level 61, right associativity).

Definition get {A} (field : ProcessReader -> A) : M A :=
  fun s => Returns (field (this s)) s.

Definition modify (f : ProcessReader -> ProcessReader) : M unit :=
  fun s => Returns tt {| this := f (this s); log := log s |}.

(** Modelled from the spec: [DCHECK] (base/logging.h) is a fatal assertion. *)
Definition DCHECK (condition : bool) : M unit :=
  fun s => if condition then Returns tt s else Fatal.

Definition LOG_ERROR (message : string) : M unit :=
  fun s => Returns tt {| this := this s; log := log s ++ [message] |}.

(** Field assignments. *)
Definition set_modules_ v (r : ProcessReader) :=
  {| modules_ := v; module_readers_ := module_readers_ r;
     process_memory_ranges_ := process_memory_ranges_ r;
     process_memory_ := process_memory_ r; process_ := process_ r;
     initialized_modules_ := initialized_modules_ r;
     initialized_ := initialized_ r |}.
Definition set_module_readers_ v (r : ProcessReader) :=
  {| modules_ := modules_ r; module_readers_ := v;
     process_memory_ranges_ := process_memory_ranges_ r;
     process_memory_ := process_memory_ r; process_ := process_ r;
     initialized_modules_ := initialized_modules_ r;
     initialized_ := initialized_ r |}.
Definition set_process_memory_ranges_ v (r : ProcessReader) :=
  {| modules_ := modules_ r; module_readers_ := module_readers_ r;
     process_memory_ranges_ := v;
     process_memory_ := process_memory_ r; process_ := process_ r;
     initialized_modules_ := initialized_modules_ r;
     initialized_ := initialized_ r |}.
Definition set_process_memory_ v (r : ProcessReader) :=
  {| modules_ := modules_ r; module_readers_ := module_readers_ r;
     process_memory_ranges_ := process_memory_ranges_ r;
     process_memory_ := v; process_ := process_ r;
     initialized_modules_ := initialized_modules_ r;
     initialized_ := initialized_ r |}.
Definition set_process_ v (r : ProcessReader) :=
  {| modules_ := modules_ r; module_readers_ := module_readers_ r;
     process_memory_ranges_ := process_memory_ranges_ r;
     process_memory_ := process_memory_ r; process_ := v;
     initialized_modules_ := initialized_modules_ r;
     initialized_ := initialized_ r |}.
Definition set_initialized_modules_ v (r : ProcessReader) :=
  {| modules_ := modules_ r; module_readers_ := module_readers_ r;
     process_memory_ranges_ := process_memory_ranges_ r;
     process_memory_ := process_memory_ r; process_ := process_ r;
     initialized_modules_ := v;
     initialized_ := initialized_ r |}.
Definition set_initialized_ v (r : ProcessReader) :=
  {| modules_ := modules_ r; module_readers_ := module_readers_ r;
     process_memory_ranges_ := process_memory_ranges_ r;
     process_memory_ := process_memory_ r; process_ := process_ r;
     initialized_modules_ := initialized_modules_ r;
     initialized_ := v |}.

(** Modelled from the spec: the macros of
    util/misc/initialization_state_dcheck.h.  The state machine is linear, so
    each transition asserts the state it leaves. *)
Definition InitializationState_eqb (a b : InitializationState) : bool :=
  match a, b with
  | Uninitialized, Uninitialized | Initializing, Initializing | Valid, Valid => true
  | _, _ => false
  end.

Definition INITIALIZATION_STATE_SET_INITIALIZING : M unit :=
  st <- get initialized_ ;;
  DCHECK (InitializationState_eqb st Uninitialized) ;;
  modify (set_initialized_ Initializing).

Definition INITIALIZATION_STATE_SET_VALID : M unit :=
  st <- get initialized_ ;;
  DCHECK (InitializationState_eqb st Initializing) ;;
  modify (set_initialized_ Valid).

Definition INITIALIZATION_STATE_DCHECK_VALID : M unit :=
  st <- get initialized_ ;;
  DCHECK (InitializationState_eqb st Valid).

(** [ProcessReader::ProcessReader() = default].  Modelled from the spec: the
    member initializers of process_reader.h, a reader created uninitialized
    with an empty, unpopulated cache. *)
Definition ProcessReader_new : ProcessReader :=
  {| modules_ := []; module_readers_ := []; process_memory_ranges_ := [];
     process_memory_ := None; process_ := ZX_HANDLE_INVALID;
     initialized_modules_ := false; initialized_ := Uninitialized |}.

(** Dereferencing [process_memory_]; a null [unique_ptr] is fatal. *)
Definition deref_process_memory_ : M ProcessMemoryFuchsia :=
  p <- get process_memory_ ;;
  match p with
  | Some pm => ret pm
  | None => fun _ => Fatal
  end.

(** ** The reader *)

Definition kMaxDso : Z := 1000.

Definition empty (s : string) : bool :=
  match s with
  | EmptyString => true
  | String _ _ => false
  end.

Definition Initialize (process : zx_handle_t) : M bool :=
  INITIALIZATION_STATE_SET_INITIALIZING ;;
  modify (set_process_ process) ;;
  modify (set_process_memory_ (Some ProcessMemoryFuchsia_new)) ;;
  pm <- deref_process_memory_ ;;
  process_ <- get process_ ;;
  modify (set_process_memory_
            (Some (snd (ProcessMemoryFuchsia_Initialize pm process_)))) ;;
  INITIALIZATION_STATE_SET_VALID ;;
  ret true.

Section Discovery.
Context {abi : LinkAbi}.
Variable kernel : Kernel.

(** The [while (map != 0)] loop of [InitializeModules]; [return] and
    [break] both leave the function, as nothing follows the loop. *)
Fixpoint walk (fuel : nat) (mem : ProcessMemory) (pm : ProcessMemoryFuchsia)
         (app_name : string) (map : Z) (i : Z) : M unit :=
  match fuel with
  | O => fun _ => OutOfFuel
  | S fuel =>
    if map =? 0 then ret tt else
    let i := i + 1 in
    if i >=? kMaxDso then
      LOG_ERROR "possibly circular dso list, terminating"
    else
    match ReadWord mem (wrap (map + k_link_map_addr_offset)) with
    | None => LOG_ERROR "Read base"
    | Some base =>
    match ReadWord mem (wrap (map + k_link_map_next_offset)) with
    | None => LOG_ERROR "Read next"
    | Some next =>
    match ReadWord mem (wrap (map + k_link_map_name_offset)) with
    | None => LOG_ERROR "Read name address"
    | Some name_address =>
      let (success, dsoname) := ReadCString mem name_address in
      (if success then ret tt else LOG_ERROR "ReadCString name") ;;
      let module_name := if empty dsoname then app_name else dsoname in
      let process_memory_range :=
        {| range_memory_ := pm; range_is_64_bit_ := true |} in
      ranges <- get process_memory_ranges_ ;;
      modify (set_process_memory_ranges_ (ranges ++ [process_memory_range])) ;;
      readers <- get module_readers_ ;;
      let reader_ :=
        {| elf_memory_ := List.length ranges; elf_ehdr_address_ := base |} in
      let module := {| name := module_name; reader := List.length readers |} in
      modify (set_module_readers_ (readers ++ [reader_])) ;;
      modules <- get modules_ ;;
      modify (set_modules_ (modules ++ [module])) ;;
      walk fuel mem pm app_name next i
    end end end
  end.

Definition InitializeModules : M unit :=
  already <- get initialized_modules_ ;;
  DCHECK (negb already) ;;
  modules <- get modules_ ;;
  DCHECK (match modules with [] => true | _ => false end) ;;
  modify (set_initialized_modules_ true) ;;
  process <- get process_ ;;
  match ZX_PROP_NAME kernel process with
  | None => LOG_ERROR "zx_object_get_property ZX_PROP_NAME"
  | Some name =>
    let app_name := String.append "app:" name in
    match ZX_PROP_PROCESS_DEBUG_ADDR kernel process with
    | None => LOG_ERROR "zx_object_get_property ZX_PROP_PROCESS_DEBUG_ADDR"
    | Some debug_address =>
      if debug_address =? 0 then
        LOG_ERROR "zx_object_get_property ZX_PROP_PROCESS_DEBUG_ADDR"
      else
        pm <- deref_process_memory_ ;;
        let mem := address_space kernel (pm_process_ pm) in
        match ReadWord mem (wrap (debug_address + k_r_debug_map_offset)) with
        | None => LOG_ERROR "read link_map"
        | Some map => walk (Z.to_nat kMaxDso) mem pm app_name map 0
        end
    end
  end.

Definition Modules : M (list ProcessReader_Module) :=
  INITIALIZATION_STATE_DCHECK_VALID ;;
  already <- get initialized_modules_ ;;
  (if negb already then InitializeModules else ret tt) ;;
  get modules_.

End Discovery.

(** ** What the walk is expected to find

    The [link_map] list as it lies in the target's memory, described without
    reference to the loop: a node is what the four reads of one iteration
    return at its address. *)

Record Node := {
  n_base : Z;
  n_next : Z;
  n_name_address : Z;
  n_name_read : bool;
  n_dsoname : string
}.

Section Chains.
Context {abi : LinkAbi}.
Variable mem : ProcessMemory.

Definition NodeAt (map : Z) (n : Node) : Prop :=
  ReadWord mem (wrap (map + k_link_map_addr_offset)) = Some (n_base n) /\
  ReadWord mem (wrap (map + k_link_map_next_offset)) = Some (n_next n) /\
  ReadWord mem (wrap (map + k_link_map_name_offset)) = Some (n_name_address n) /\
  ReadCString mem (n_name_address n) = (n_name_read n, n_dsoname n).

(** [Path a ns b]: starting at address [a], the nodes [ns] are readable in
    this order and the last one's successor pointer is [b]. *)
Inductive Path : Z -> list Node -> Z -> Prop :=
| Path_nil a : Path a [] a
| Path_cons a n ns b :
    a <> 0 -> NodeAt a n -> Path (n_next n) ns b -> Path a (n :: ns) b.

(** A node at which one of the three field reads fails. *)
Definition BrokenAt (map : Z) : Prop :=
  ReadWord mem (wrap (map + k_link_map_addr_offset)) = None \/
  ReadWord mem (wrap (map + k_link_map_next_offset)) = None \/
  ReadWord mem (wrap (map + k_link_map_name_offset)) = None.

(** A valid chain: every node readable, path strings included, and the
    last successor pointer null. *)
Definition ValidChain (head : Z) (ns : list Node) : Prop :=
  Path head ns 0 /\ Forall (fun n => n_name_read n = true) ns.

(** Decision procedures, used to check concrete memories. *)
Definition option_Z_eqb (a b : option Z) : bool :=
  match a, b with
  | Some x, Some y => x =? y
  | None, None => true
  | _, _ => false
  end.

Definition option_string_eqb (a b : option string) : bool :=
  match a, b with
  | Some x, Some y => String.eqb x y
  | None, None => true
  | _, _ => false
  end.

Definition NodeAtb (map : Z) (n : Node) : bool :=
  option_Z_eqb (ReadWord mem (wrap (map + k_link_map_addr_offset)))
               (Some (n_base n)) &&
  option_Z_eqb (ReadWord mem (wrap (map + k_link_map_next_offset)))
               (Some (n_next n)) &&
  option_Z_eqb (ReadWord mem (wrap (map + k_link_map_name_offset)))
               (Some (n_name_address n)) &&
  Bool.eqb (fst (ReadCString mem (n_name_address n))) (n_name_read n) &&
  String.eqb (snd (ReadCString mem (n_name_address n))) (n_dsoname n).

Fixpoint Pathb (a : Z) (ns : list Node) (b : Z) : bool :=
  match ns with
  | [] => a =? b
  | n :: ns => negb (a =? 0) && NodeAtb a n && Pathb (n_next n) ns b
  end.

Definition is_none {A} (o : option A) : bool :=
  match o with
  | Some _ => false
  | None => true
  end.

Definition BrokenAtb (map : Z) : bool :=
  is_none (ReadWord mem (wrap (map + k_link_map_addr_offset))) ||
  is_none (ReadWord mem (wrap (map + k_link_map_next_offset))) ||
  is_none (ReadWord mem (wrap (map + k_link_map_name_offset))).

Definition ValidChainb (head : Z) (ns : list Node) : bool :=
  Pathb head ns 0 && forallb n_name_read ns.
End Chains.

Section Prerequisites.
Context {abi : LinkAbi}.

(** Both property queries succeed, the anchor is not null and the head
    pointer read at the anchor yields [head]. *)
Definition Anchored (k : Kernel) (h : zx_handle_t) (process_name : string)
    (head : Z) : Prop :=
  ZX_PROP_NAME k h = Some process_name /\
  exists debug_address,
    ZX_PROP_PROCESS_DEBUG_ADDR k h = Some debug_address /\
    debug_address <> 0 /\
    ReadWord (address_space k h) (wrap (debug_address + k_r_debug_map_offset))
    = Some head.

(** One of the prerequisites of discovery fails. *)
Definition PrerequisiteFails (k : Kernel) (h : zx_handle_t) : Prop :=
  ZX_PROP_NAME k h = None \/
  ZX_PROP_PROCESS_DEBUG_ADDR k h = None \/
  ZX_PROP_PROCESS_DEBUG_ADDR k h = Some 0 \/
  exists debug_address,
    ZX_PROP_PROCESS_DEBUG_ADDR k h = Some debug_address /\
    ReadWord (address_space k h) (wrap (debug_address + k_r_debug_map_offset))
    = None.

Definition Anchoredb (k : Kernel) (h : zx_handle_t) (process_name : string)
    (head : Z) : bool :=
  option_string_eqb (ZX_PROP_NAME k h) (Some process_name) &&
  match ZX_PROP_PROCESS_DEBUG_ADDR k h with
  | Some debug_address =>
    negb (debug_address =? 0) &&
    option_Z_eqb
      (ReadWord (address_space k h) (wrap (debug_address + k_r_debug_map_offset)))
      (Some head)
  | None => false
  end.
End Prerequisites.

(** The display name of a module (source line 140). *)
Definition display_name (app_name : string) (n : Node) : string :=
  if empty (n_dsoname n) then app_name else n_dsoname n.

(** The effect of one complete iteration on the reader and on the log. *)
Definition append_module (pm : ProcessMemoryFuchsia) (app_name : string)
    (s : State) (n : Node) : State :=
  let r := this s in
  {| this :=
       set_modules_
         (modules_ r ++ [{| name := display_name app_name n;
                            reader := List.length (module_readers_ r) |}])
         (set_module_readers_
            (module_readers_ r ++
               [{| elf_memory_ := List.length (process_memory_ranges_ r);
                   elf_ehdr_address_ := n_base n |}])
            (set_process_memory_ranges_
               (process_memory_ranges_ r ++
                  [{| range_memory_ := pm; range_is_64_bit_ := true |}])
               r));
     log := if n_name_read n then log s
            else log s ++ ["ReadCString name"] |}.

Definition append_modules pm app_name (s : State) (ns : list Node) : State :=
  fold_left (append_module pm app_name) ns s.

(** The descriptors of the nodes [ns], the first of them being the
    [first]-th module of the reader. *)
Fixpoint descriptors (app_name : string) (first : nat) (ns : list Node)
    : list ProcessReader_Module :=
  match ns with
  | [] => []
  | n :: ns => {| name := display_name app_name n; reader := first |}
               :: descriptors app_name (S first) ns
  end.

Definition readers_of (first : nat) (ns : list Node) : list ElfImageReader :=
  List.map (fun p => {| elf_memory_ := fst p; elf_ehdr_address_ := n_base (snd p) |})
           (combine (seq first (List.length ns)) ns).

(** The reader as [Initialize] leaves it, before the first [Modules]. *)
Definition attached (process : zx_handle_t) : State :=
  {| this := {| modules_ := []; module_readers_ := [];
                process_memory_ranges_ := [];
                process_memory_ := Some {| pm_process_ := process |};
                process_ := process;
                initialized_modules_ := false;
                initialized_ := Valid |};
     log := [] |}.

Definition logged (message : string) (s : State) : State :=
  {| this := this s; log := log s ++ [message] |}.

(** The reader once [InitializeModules] has raised the cache flag. *)
Definition discovering (process : zx_handle_t) : State :=
  {| this := set_initialized_modules_ true (this (attached process));
     log := [] |}.

(** How a walk ends: silently, or with one diagnostic. *)
Definition stopped (stop : option string) (s : State) : State :=
  match stop with
  | Some message => logged message s
  | None => s
  end.

(** The value a call returns, if it returns. *)
Definition returned {A} (o : Outcome A) : option A :=
  match o with
  | Returns a _ => Some a
  | _ => None
  end.

(** A cyclic list unrolled: [pre] leads to the cycle [cyc]. *)
Fixpoint unroll (cyc : list Node) (turns : nat) : list Node :=
  match turns with
  | O => []
  | S turns => cyc ++ unroll cyc turns
  end.

(** ** A byte-addressed target for the examples *)

Definition Image := Z -> option byte.

Fixpoint read_bytes (image : Image) (address : Z) (size : nat)
    : option (list byte) :=
  match size with
  | O => Some []
  | S size =>
    match image (wrap address), read_bytes image (address + 1) size with
    | Some b, Some bs => Some (b :: bs)
    | _, _ => None
    end
  end.

(** Characters are appended to the string as they are read, so a read that
    runs into unmapped memory fails with the characters before it stored. *)
Fixpoint read_c_string (image : Image) (limit : nat) (address : Z)
    : bool * string :=
  match limit with
  | O => (false, EmptyString)
  | S limit =>
    match image (wrap address) with
    | None => (false, EmptyString)
    | Some b =>
      if byte.unsigned b =? 0 then (true, EmptyString)
      else let (success, rest) := read_c_string image limit (address + 1) in
           (success, String (ascii_of_byte b) rest)
    end
  end.

Lemma read_bytes_size image : forall size address buffer,
  read_bytes image address size = Some buffer -> List.length buffer = size.
Proof.
  induction size as [|size IH]; intros address buffer; simpl.
  - intros [= <-]. reflexivity.
  - destruct (image (wrap address)); [|discriminate].
    destruct (read_bytes image (address + 1) size) eqn:E; [|discriminate].
    intros [= <-]. simpl. f_equal. eauto.
Qed.

Definition image_memory (image : Image) : ProcessMemory :=
  {| Read := read_bytes image;
     ReadCString := read_c_string image 4096;
     Read_size := fun address size => read_bytes_size image size address |}.

(** Memory contents given as segments [(start, bytes)]. *)
Fixpoint image_of (segments : list (Z * list byte)) : Image :=
  fun address =>
    match segments with
    | [] => None
    | (start, bytes) :: rest =>
      if (start <=? address) && (address <? start + Z.of_nat (List.length bytes))
      then nth_error bytes (Z.to_nat (address - start))
      else image_of rest address
    end.

Definition word_at (address value : Z) : Z * list byte :=
  (address, le_split sizeof_uintptr_t value).

Definition c_string_at (address : Z) (s : string) : Z * list byte :=
  (address, (list_byte_of_string s ++ [Byte.x00])%list).

(** The LP64 layout of [r_debug] and [link_map] in <link.h>. *)
Definition lp64 : LinkAbi :=
  {| k_r_debug_map_offset := 8;
     k_link_map_addr_offset := 0;
     k_link_map_name_offset := 8;
     k_link_map_next_offset := 24 |}.

(** The scenario of the specification: two nodes, the second without a path
    of its own. *)
Definition two_modules_image : Image :=
  image_of
    [ word_at (0x500 + 8) 0x1000;
      word_at 0x1000 0x400000; word_at 0x1008 0x3000; word_at 0x1018 0x2000;
      word_at 0x2000 0x800000; word_at 0x2008 0x3010; word_at 0x2018 0;
      c_string_at 0x3000 "/lib/libc.so";
      c_string_at 0x3010 "" ].

Definition two_modules_kernel : Kernel :=
  {| ZX_PROP_NAME := fun _ => Some "crasher";
     ZX_PROP_PROCESS_DEBUG_ADDR := fun _ => Some 0x500;
     address_space := fun _ => image_memory two_modules_image |}.

Definition two_nodes : list Node :=
  [ {| n_base := 0x400000; n_next := 0x2000; n_name_address := 0x3000;
       n_name_read := true; n_dsoname := "/lib/libc.so" |};
    {| n_base := 0x800000; n_next := 0; n_name_address := 0x3010;
       n_name_read := true; n_dsoname := "" |} ].

(** Three nodes; the path string of the last one lies in unmapped memory. *)
Definition unnamed_module_image : Image :=
  image_of
    [ word_at (0x500 + 8) 0x1000;
      word_at 0x1000 0x400000; word_at 0x1008 0x3000; word_at 0x1018 0x2000;
      word_at 0x2000 0x800000; word_at 0x2008 0x3010; word_at 0x2018 0x2800;
      word_at 0x2800 0xa00000; word_at 0x2808 0x9000; word_at 0x2818 0;
      c_string_at 0x3000 "/lib/libc.so";
      c_string_at 0x3010 "" ].

Definition unnamed_module_kernel : Kernel :=
  {| ZX_PROP_NAME := fun _ => Some "crasher";
     ZX_PROP_PROCESS_DEBUG_ADDR := fun _ => Some 0x500;
     address_space := fun _ => image_memory unnamed_module_image |}.

Definition unnamed_module_nodes : list Node :=
  [ {| n_base := 0x400000; n_next := 0x2000; n_name_address := 0x3000;
       n_name_read := true; n_dsoname := "/lib/libc.so" |};
    {| n_base := 0x800000; n_next := 0x2800; n_name_address := 0x3010;
       n_name_read := true; n_dsoname := "" |};
    {| n_base := 0xa00000; n_next := 0; n_name_address := 0x9000;
       n_name_read := false; n_dsoname := "" |} ].

(** Two nodes, the second without a readable successor pointer. *)
Definition broken_image : Image :=
  image_of
    [ word_at (0x500 + 8) 0x1000;
      word_at 0x1000 0x400000; word_at 0x1008 0x3000; word_at 0x1018 0x2000;
      word_at 0x2000 0x800000; word_at 0x2008 0x3000;
      c_string_at 0x3000 "/lib/libc.so" ].

Definition broken_kernel : Kernel :=
  {| ZX_PROP_NAME := fun _ => Some "crasher";
     ZX_PROP_PROCESS_DEBUG_ADDR := fun _ => Some 0x500;
     address_space := fun _ => image_memory broken_image |}.

Definition broken_prefix : list Node :=
  [ {| n_base := 0x400000; n_next := 0x2000; n_name_address := 0x3000;
       n_name_read := true; n_dsoname := "/lib/libc.so" |} ].

(** Two nodes, the second pointing back at the first. *)
Definition cyclic_image : Image :=
  image_of
    [ word_at (0x500 + 8) 0x1000;
      word_at 0x1000 0x400000; word_at 0x1008 0x3000; word_at 0x1018 0x2000;
      word_at 0x2000 0x800000; word_at 0x2008 0x3010; word_at 0x2018 0x1000;
      c_string_at 0x3000 "/lib/libc.so";
      c_string_at 0x3010 "/lib/libfdio.so" ].

Definition cyclic_kernel : Kernel :=
  {| ZX_PROP_NAME := fun _ => Some "crasher";
     ZX_PROP_PROCESS_DEBUG_ADDR := fun _ => Some 0x500;
     address_space := fun _ => image_memory cyclic_image |}.

Definition cycle_nodes : list Node :=
  [ {| n_base := 0x400000; n_next := 0x2000; n_name_address := 0x3000;
       n_name_read := true; n_dsoname := "/lib/libc.so" |};
    {| n_base := 0x800000; n_next := 0x1000; n_name_address := 0x3010;
       n_name_read := true; n_dsoname := "/lib/libfdio.so" |} ].

(** A clean chain of [count] nodes of 32 bytes each, laid out one after the
    other from [0x10000]; node [i] is loaded at [0x400000 + 0x1000 * i]. *)
Definition long_node (count i : Z) : Node :=
  {| n_base := 0x400000 + 0x1000 * i;
     n_next := if i + 1 =? count then 0 else 0x10000 + 32 * (i + 1);
     n_name_address := 0x3000;
     n_name_read := true; n_dsoname := "/lib/libc.so" |}.

Definition long_nodes (count : nat) : list Node :=
  List.map (fun i => long_node (Z.of_nat count) (Z.of_nat i)) (seq 0 count).

Definition long_chain_image (count : Z) : Image :=
  fun address =>
    if (0x10000 <=? address) && (address <? 0x10000 + 32 * count) then
      let i := (address - 0x10000) / 32 in
      let offset := (address - 0x10000) mod 32 in
      let n := long_node count i in
      let field := if offset <? 8 then n_base n
                   else if offset <? 16 then n_name_address n
                   else if offset <? 24 then 0
                   else n_next n in
      Some (byte.of_Z (Z.shiftr field (8 * (offset mod 8))))
    else
      image_of [ word_at (0x500 + 8) 0x10000;
                 c_string_at 0x3000 "/lib/libc.so" ] address.

Definition long_kernel (count : Z) : Kernel :=
  {| ZX_PROP_NAME := fun _ => Some "crasher";
     ZX_PROP_PROCESS_DEBUG_ADDR := fun _ => Some 0x500;
     address_space := fun _ => image_memory (long_chain_image count) |}.

(** Three nodes; the path string of the middle one lies in unmapped memory. *)
Definition middle_failure_image : Image :=
  image_of
    [ word_at (0x500 + 8) 0x1000;
      word_at 0x1000 0x400000; word_at 0x1008 0x3000; word_at 0x1018 0x2000;
      word_at 0x2000 0x800000; word_at 0x2008 0x9000; word_at 0x2018 0x2800;
      word_at 0x2800 0xa00000; word_at 0x2808 0x3010; word_at 0x2818 0;
      c_string_at 0x3000 "/lib/libc.so";
      c_string_at 0x3010 "/lib/libfdio.so" ].

Definition middle_failure_kernel : Kernel :=
  {| ZX_PROP_NAME := fun _ => Some "crasher";
     ZX_PROP_PROCESS_DEBUG_ADDR := fun _ => Some 0x500;
     address_space := fun _ => image_memory middle_failure_image |}.





(** Targets on which a prerequisite of discovery fails. *)
Definition nameless_kernel : Kernel :=
  {| ZX_PROP_NAME := fun _ => None;
     ZX_PROP_PROCESS_DEBUG_ADDR := fun _ => Some 0x500;
     address_space := fun _ => image_memory two_modules_image |}.

Definition unanchored_kernel : Kernel :=
  {| ZX_PROP_NAME := fun _ => Some "crasher";
     ZX_PROP_PROCESS_DEBUG_ADDR := fun _ => Some 0;
     address_space := fun _ => image_memory two_modules_image |}.

(** ** Diagnostics and locality *)

(** The diagnostics of complete iterations: one per node whose path string
    could not be read (source lines 133-137). *)
Definition name_diagnostics (ns : list Node) : list string :=
  flat_map (fun n => if n_name_read n then [] else ["ReadCString name"]) ns.

(** The diagnostic of the first field read that fails at [map], in the order
    of the reads (source lines 105-130). *)
Definition failed_read_message {abi : LinkAbi} (mem : ProcessMemory) (map : Z)
    : string :=
  match ReadWord mem (wrap (map + k_link_map_addr_offset)) with
  | None => "Read base"
  | Some _ =>
    match ReadWord mem (wrap (map + k_link_map_next_offset)) with
    | None => "Read next"
    | Some _ => "Read name address"
    end
  end.

(** Two kernels show the same target behind the handle [h]. *)
Definition same_target (k1 k2 : Kernel) (h : zx_handle_t) : Prop :=
  ZX_PROP_NAME k1 h = ZX_PROP_NAME k2 h /\
  ZX_PROP_PROCESS_DEBUG_ADDR k1 h = ZX_PROP_PROCESS_DEBUG_ADDR k2 h /\
  (forall address size,
     Read (address_space k1 h) address size
     = Read (address_space k2 h) address size) /\
  (forall address,
     ReadCString (address_space k1 h) address
     = ReadCString (address_space k2 h) address).

(** The two-module target behind handle 7, beside other processes that the
    kernel shows differently. *)
Definition crowded_kernel : Kernel :=
  {| ZX_PROP_NAME := fun h => if h =? 7 then Some "crasher" else None;
     ZX_PROP_PROCESS_DEBUG_ADDR := fun h => if h =? 7 then Some 0x500 else Some 0;
     address_space := fun h => if h =? 7 then image_memory two_modules_image
                               else image_memory cyclic_image |}.

(** A target whose anchor points into unmapped memory. *)
Definition headless_kernel : Kernel :=
  {| ZX_PROP_NAME := fun _ => Some "crasher";
     ZX_PROP_PROCESS_DEBUG_ADDR := fun _ => Some 0x9000;
     address_space := fun _ => image_memory two_modules_image |}.

(** The memory range object that every iteration creates. *)
Definition range_of (h : zx_handle_t) : ProcessMemoryRange :=
  {| range_memory_ := {| pm_process_ := h |}; range_is_64_bit_ := true |}.

(** * Properties *)

Ltac run :=
  cbv beta iota delta
      [bind get modify ret DCHECK LOG_ERROR deref_process_memory_
       this log modules_ module_readers_ process_memory_ranges_
       process_memory_ process_ initialized_modules_ initialized_
       set_modules_ set_module_readers_ set_process_memory_ranges_
       set_process_memory_ set_process_ set_initialized_modules_
       set_initialized_ attached discovering pm_process_ negb].

(** A pointer-sized read yields a 64-bit value. *)
Lemma ReadWord_range mem address value :
  ReadWord mem address = Some value -> 0 <= value < 2 ^ 64.
Proof.
  unfold ReadWord. destruct (Read mem address sizeof_uintptr_t) as [buffer|] eqn:E;
    [|discriminate].
  intros [= <-]. pose proof (le_combine_bound buffer) as Hbound.
  rewrite (Read_size mem _ _ _ E) in Hbound. exact Hbound.
Qed.

Section Walk.
Context {abi : LinkAbi}.
Variables (mem : ProcessMemory) (pm : ProcessMemoryFuchsia) (app_name : string).

Lemma walk_null fuel i s :
  walk (S fuel) mem pm app_name 0 i s = Returns tt s.
Proof. reflexivity. Qed.

Lemma walk_ceiling fuel map i s :
  map <> 0 -> kMaxDso <= i + 1 ->
  walk (S fuel) mem pm app_name map i s =
  Returns tt (logged "possibly circular dso list, terminating" s).
Proof.
  intros Hmap Hi. simpl.
  destruct (Z.eqb_spec map 0) as [|_]; [contradiction|].
  destruct (Z.geb_spec (i + 1) kMaxDso) as [_|?]; [reflexivity|lia].
Qed.

Lemma walk_node fuel map i n s :
  map <> 0 -> i + 1 < kMaxDso -> NodeAt mem map n ->
  walk (S fuel) mem pm app_name map i s =
  walk fuel mem pm app_name (n_next n) (i + 1) (append_module pm app_name s n).
Proof.
  intros Hmap Hi (Hbase & Hnext & Hname & Hstr). simpl.
  destruct (Z.eqb_spec map 0) as [|_]; [contradiction|].
  destruct (Z.geb_spec (i + 1) kMaxDso) as [?|_]; [lia|].
  rewrite Hbase, Hnext, Hname, Hstr.
  unfold append_module, display_name.
  destruct (n_name_read n); reflexivity.
Qed.

Lemma walk_broken fuel map i s :
  map <> 0 -> i + 1 < kMaxDso -> BrokenAt mem map ->
  exists message, walk (S fuel) mem pm app_name map i s = Returns tt (logged message s).
Proof.
  intros Hmap Hi Hbroken. simpl.
  destruct (Z.eqb_spec map 0) as [|_]; [contradiction|].
  destruct (Z.geb_spec (i + 1) kMaxDso) as [?|_]; [lia|].
  destruct (ReadWord mem (wrap (map + k_link_map_addr_offset))) eqn:Ebase;
    [|eexists; reflexivity].
  destruct (ReadWord mem (wrap (map + k_link_map_next_offset))) eqn:Enext;
    [|eexists; reflexivity].
  destruct (ReadWord mem (wrap (map + k_link_map_name_offset))) eqn:Ename;
    [|eexists; reflexivity].
  destruct Hbroken as [H|[H|H]]; congruence.
Qed.
End Walk.

(** ** Paths in the target's memory *)

Section PathFacts.
Context {abi : LinkAbi}.
Variable mem : ProcessMemory.

Lemma node_or_broken map : BrokenAt mem map \/ exists n, NodeAt mem map n.
Proof.
  unfold BrokenAt, NodeAt.
  destruct (ReadWord mem (wrap (map + k_link_map_addr_offset))) as [base|]; auto.
  destruct (ReadWord mem (wrap (map + k_link_map_next_offset))) as [next|]; auto.
  destruct (ReadWord mem (wrap (map + k_link_map_name_offset))) as [name_address|]; auto.
  right.
  exists {| n_base := base; n_next := next; n_name_address := name_address;
            n_name_read := fst (ReadCString mem name_address);
            n_dsoname := snd (ReadCString mem name_address) |}.
  simpl. repeat split. now destruct (ReadCString mem name_address).
Qed.

Lemma Path_app a xs b ys c :
  Path mem a xs b -> Path mem b ys c -> Path mem a (xs ++ ys) c.
Proof.
  induction 1 as [a|a n ns b Ha Hn _ IH]; intros Hys; simpl.
  - assumption.
  - constructor; auto.
Qed.

Lemma Path_split xs : forall a ys c,
  Path mem a (xs ++ ys) c -> exists b, Path mem a xs b /\ Path mem b ys c.
Proof.
  induction xs as [|n xs IH]; simpl; intros a ys c H.
  - exists a. split; [constructor|assumption].
  - inversion H as [|a' n' ns' c' Ha Hn Hrest]; subst.
    destruct (IH _ _ _ Hrest) as (b & Hxs & Hys).
    exists b. split; [constructor; assumption|assumption].
Qed.

Lemma Path_start_not_null a n ns b : Path mem a (n :: ns) b -> a <> 0.
Proof. inversion 1; assumption. Qed.

Lemma Path_unroll c cyc turns : Path mem c cyc c -> Path mem c (unroll cyc turns) c.
Proof.
  intros Hcyc. induction turns as [|turns IH]; simpl.
  - constructor.
  - eapply Path_app; eassumption.
Qed.

Lemma option_Z_eqb_eq a b : option_Z_eqb a b = true -> a = b.
Proof.
  destruct a, b; simpl; try discriminate; try reflexivity.
  intros H. apply Z.eqb_eq in H. congruence.
Qed.

Lemma option_string_eqb_eq a b : option_string_eqb a b = true -> a = b.
Proof.
  destruct a, b; simpl; try discriminate; try reflexivity.
  intros H. apply String.eqb_eq in H. congruence.
Qed.

Lemma NodeAtb_sound map n : NodeAtb mem map n = true -> NodeAt mem map n.
Proof.
  unfold NodeAtb, NodeAt. rewrite !andb_true_iff.
  intros [[[[H1 H2] H3] H4] H5].
  apply Bool.eqb_prop in H4. apply String.eqb_eq in H5.
  repeat split; auto using option_Z_eqb_eq.
  destruct (ReadCString mem (n_name_address n)); simpl in *. congruence.
Qed.

Lemma Pathb_sound ns : forall a b, Pathb mem a ns b = true -> Path mem a ns b.
Proof.
  induction ns as [|n ns IH]; simpl; intros a b H.
  - apply Z.eqb_eq in H. subst. constructor.
  - rewrite !andb_true_iff, negb_true_iff in H. destruct H as [[Ha Hn] Hrest].
    constructor; auto using NodeAtb_sound.
    apply Z.eqb_neq. assumption.
Qed.

Lemma ValidChainb_sound head ns :
  ValidChainb mem head ns = true -> ValidChain mem head ns.
Proof.
  unfold ValidChainb, ValidChain. rewrite andb_true_iff, forallb_forall.
  intros [Hpath Hall]. split; [now apply Pathb_sound|].
  apply Forall_forall. assumption.
Qed.

Lemma BrokenAtb_sound map : BrokenAtb mem map = true -> BrokenAt mem map.
Proof.
  unfold BrokenAtb, BrokenAt. rewrite !orb_true_iff.
  intros [[H|H]|H]; [left|right; left|right; right];
    match type of H with is_none ?o = true => destruct o end;
    (reflexivity || discriminate).
Qed.
End PathFacts.

(** ** What a run of complete iterations leaves behind *)

Section Appending.
Variables (pm : ProcessMemoryFuchsia) (app_name : string).

Lemma append_modules_cons s n ns :
  append_modules pm app_name s (n :: ns) =
  append_modules pm app_name (append_module pm app_name s n) ns.
Proof. reflexivity. Qed.


Lemma modules_append_modules ns : forall s,
  modules_ (this (append_modules pm app_name s ns)) =
  modules_ (this s) ++
    descriptors app_name (List.length (module_readers_ (this s))) ns.
Proof.
  induction ns as [|n ns IH]; intros s.
  - simpl. now rewrite app_nil_r.
  - rewrite append_modules_cons, IH. simpl.
    rewrite <- app_assoc, length_app. simpl.
    now rewrite Nat.add_1_r.
Qed.

Lemma readers_append_modules ns : forall s,
  module_readers_ (this (append_modules pm app_name s ns)) =
  module_readers_ (this s) ++
    readers_of (List.length (process_memory_ranges_ (this s))) ns /\
  process_memory_ranges_ (this (append_modules pm app_name s ns)) =
  process_memory_ranges_ (this s) ++
    repeat {| range_memory_ := pm; range_is_64_bit_ := true |} (List.length ns).
Proof.
  induction ns as [|n ns IH]; intros s.
  - simpl. now rewrite !app_nil_r.
  - rewrite append_modules_cons.
    destruct (IH (append_module pm app_name s n)) as [-> ->]. simpl.
    rewrite <- !app_assoc, length_app. simpl.
    now rewrite Nat.add_1_r.
Qed.

Lemma append_modules_frame ns : forall s,
  let s' := append_modules pm app_name s ns in
  initialized_ (this s') = initialized_ (this s) /\
  initialized_modules_ (this s') = initialized_modules_ (this s) /\
  process_ (this s') = process_ (this s) /\
  process_memory_ (this s') = process_memory_ (this s).
Proof.
  induction ns as [|n ns IH]; intros s; simpl.
  - auto.
  - apply (IH (append_module pm app_name s n)).
Qed.

Lemma append_modules_log ns : forall s,
  Forall (fun n => n_name_read n = true) ns ->
  log (append_modules pm app_name s ns) = log s.
Proof.
  induction ns as [|n ns IH]; intros s Hall.
  - reflexivity.
  - inversion Hall as [|n' ns' Hn Hns]; subst.
    rewrite append_modules_cons, IH by assumption. simpl.
    now rewrite Hn.
Qed.

Lemma length_descriptors first ns :
  List.length (descriptors app_name first ns) = List.length ns.
Proof.
  revert first. induction ns as [|n ns IH]; intros first; simpl; auto.
Qed.

Lemma map_name_descriptors first ns :
  List.map name (descriptors app_name first ns) =
  List.map (display_name app_name) ns.
Proof.
  revert first. induction ns as [|n ns IH]; intros first; simpl; f_equal; auto.
Qed.

Lemma nth_error_descriptors ns : forall first j n,
  nth_error ns j = Some n ->
  nth_error (descriptors app_name first ns) j =
  Some {| name := display_name app_name n; reader := (first + j)%nat |}.
Proof.
  induction ns as [|n0 ns IH]; intros first j n H.
  - destruct j; discriminate.
  - destruct j as [|j]; simpl in *.
    + injection H as ->. now rewrite Nat.add_0_r.
    + rewrite (IH _ _ _ H). now rewrite Nat.add_succ_r.
Qed.
End Appending.

(** ** The walk along a path *)

Section WalkPaths.
Context {abi : LinkAbi}.
Variables (mem : ProcessMemory) (pm : ProcessMemoryFuchsia) (app_name : string).

(** Readable nodes below the ceiling are consumed one iteration each. *)
Lemma walk_path a ns b :
  Path mem a ns b ->
  forall fuel i s,
  i + Z.of_nat (List.length ns) < kMaxDso ->
  walk (List.length ns + fuel) mem pm app_name a i s =
  walk fuel mem pm app_name b (i + Z.of_nat (List.length ns))
       (append_modules pm app_name s ns).
Proof.
  induction 1 as [a|a n ns b Ha Hn _ IH]; intros fuel i s Hi.
  - simpl. now rewrite Z.add_0_r.
  - cbn [List.length Nat.add] in *.
    rewrite (walk_node mem pm app_name _ a i n s Ha) by (assumption || lia).
    rewrite IH by lia. rewrite append_modules_cons. f_equal. lia.
Qed.

(** Every walk returns: it consumes some readable path and stops with at
    most one diagnostic. *)
Lemma walk_result fuel : forall map i s,
  0 <= i < kMaxDso -> kMaxDso - i <= Z.of_nat fuel ->
  exists ns b stop,
    Path mem map ns b /\
    i + Z.of_nat (List.length ns) < kMaxDso /\
    walk fuel mem pm app_name map i s =
    Returns tt (stopped stop (append_modules pm app_name s ns)).
Proof.
  induction fuel as [|fuel IH]; intros map i s Hi Hfuel; [lia|].
  destruct (Z.eq_dec map 0) as [->|Hmap].
  { exists [], 0, None. repeat split; [constructor|simpl; lia]. }
  destruct (Z_lt_le_dec (i + 1) kMaxDso) as [Hlt|Hge].
  2:{ exists [], map, (Some "possibly circular dso list, terminating").
      repeat split; [constructor|simpl; lia|].
      now apply walk_ceiling. }
  destruct (node_or_broken mem map) as [Hbroken|[n Hn]].
  { destruct (walk_broken mem pm app_name fuel map i s Hmap Hlt Hbroken)
      as [message Hwalk].
    exists [], map, (Some message).
    repeat split; [constructor|simpl; lia|assumption]. }
  destruct (IH (n_next n) (i + 1) (append_module pm app_name s n))
    as (ns & b & stop & Hpath & Hlen & Hwalk); [lia|lia|].
  exists (n :: ns), b, stop.
  repeat split.
  - constructor; assumption.
  - cbn [List.length]. lia.
  - rewrite (walk_node mem pm app_name fuel map i n s) by assumption.
    exact Hwalk.
Qed.

(** More fuel than the ceiling changes nothing. *)
Lemma walk_fuel_irrelevant fuel : forall fuel' map i s s',
  walk fuel mem pm app_name map i s = Returns tt s' ->
  (fuel <= fuel')%nat ->
  walk fuel' mem pm app_name map i s = Returns tt s'.
Proof.
  induction fuel as [|fuel IH]; intros fuel' map i s s' H Hle; [discriminate|].
  destruct fuel' as [|fuel']; [lia|].
  revert H. simpl.
  destruct (map =? 0); [auto|].
  destruct (i + 1 >=? kMaxDso); [auto|].
  destruct (ReadWord mem (wrap (map + k_link_map_addr_offset))); [|auto].
  destruct (ReadWord mem (wrap (map + k_link_map_next_offset))); [|auto].
  destruct (ReadWord mem (wrap (map + k_link_map_name_offset))); [|auto].
  destruct (ReadCString mem z1) as [[|] dsoname]; run; intros H; apply IH; auto; lia.
Qed.

Lemma walk_path_null a ns fuel s :
  Path mem a ns 0 -> Z.of_nat (List.length ns) < kMaxDso ->
  (List.length ns < fuel)%nat ->
  walk fuel mem pm app_name a 0 s =
  Returns tt (append_modules pm app_name s ns).
Proof.
  intros Hpath Hlen Hfuel.
  replace fuel with (List.length ns + S (fuel - S (List.length ns)))%nat by lia.
  rewrite (walk_path a ns 0 Hpath) by lia. apply walk_null.
Qed.

Lemma walk_path_broken a ns b fuel s :
  Path mem a ns b -> b <> 0 -> BrokenAt mem b ->
  Z.of_nat (List.length ns) + 1 < kMaxDso ->
  (List.length ns < fuel)%nat ->
  exists message,
    walk fuel mem pm app_name a 0 s =
    Returns tt (logged message (append_modules pm app_name s ns)).
Proof.
  intros Hpath Hb Hbroken Hlen Hfuel.
  replace fuel with (List.length ns + S (fuel - S (List.length ns)))%nat by lia.
  rewrite (walk_path a ns b Hpath) by lia.
  apply walk_broken; auto; lia.
Qed.

Lemma walk_path_ceiling a ns b fuel s :
  Path mem a ns b -> b <> 0 ->
  Z.of_nat (List.length ns) + 1 = kMaxDso ->
  (List.length ns < fuel)%nat ->
  walk fuel mem pm app_name a 0 s =
  Returns tt (logged "possibly circular dso list, terminating"
                     (append_modules pm app_name s ns)).
Proof.
  intros Hpath Hb Hlen Hfuel.
  replace fuel with (List.length ns + S (fuel - S (List.length ns)))%nat by lia.
  rewrite (walk_path a ns b Hpath) by lia.
  apply walk_ceiling; auto; lia.
Qed.

(** On a path longer than the ceiling allows, the walk keeps the first
    [kMaxDso - 1] nodes. *)
Lemma walk_path_long a ns b fuel s :
  Path mem a ns b -> kMaxDso <= Z.of_nat (List.length ns) ->
  (Z.to_nat kMaxDso <= fuel)%nat ->
  walk fuel mem pm app_name a 0 s =
  Returns tt (logged "possibly circular dso list, terminating"
                (append_modules pm app_name s
                   (firstn (Z.to_nat (kMaxDso - 1)) ns))).
Proof.
  intros Hpath Hlen Hfuel.
  rewrite <- (firstn_skipn (Z.to_nat (kMaxDso - 1)) ns) in Hpath.
  apply Path_split in Hpath. destruct Hpath as (c & Hfirst & Hrest).
  assert (Hcount : List.length (firstn (Z.to_nat (kMaxDso - 1)) ns)
                   = Z.to_nat (kMaxDso - 1)).
  { apply firstn_length_le. unfold kMaxDso in *. lia. }
  assert (Hc : c <> 0).
  { destruct (skipn (Z.to_nat (kMaxDso - 1)) ns) as [|n rest] eqn:E.
    - apply (f_equal (@List.length Node)) in E. rewrite length_skipn in E.
      simpl in E. unfold kMaxDso in *. lia.
    - eapply Path_start_not_null; eassumption. }
  apply walk_path_ceiling with (b := c); auto.
  - rewrite Hcount. unfold kMaxDso. lia.
  - rewrite Hcount. unfold kMaxDso in *. lia.
Qed.
End WalkPaths.

(** ** Discovery as a whole *)

Section DiscoveryFacts.
Context {abi : LinkAbi}.

Lemma Anchoredb_sound k h process_name head :
  Anchoredb k h process_name head = true -> Anchored k h process_name head.
Proof.
  unfold Anchoredb, Anchored. rewrite andb_true_iff.
  intros [Hname Hrest]. split; [now apply option_string_eqb_eq|].
  destruct (ZX_PROP_PROCESS_DEBUG_ADDR k h) as [d|]; [|discriminate].
  rewrite andb_true_iff, negb_true_iff in Hrest. destruct Hrest as [Hd Hhead].
  exists d. split; [reflexivity|]. split; [now apply Z.eqb_neq|].
  now apply option_Z_eqb_eq.
Qed.

Lemma Modules_unfold k s :
  Modules k s =
  match initialized_ (this s) with
  | Valid =>
    if initialized_modules_ (this s) then Returns (modules_ (this s)) s
    else match InitializeModules k s with
         | Returns _ s' => Returns (modules_ (this s')) s'
         | Fatal => Fatal
         | OutOfFuel => OutOfFuel
         end
  | _ => Fatal
  end.
Proof.
  unfold Modules, INITIALIZATION_STATE_DCHECK_VALID.
  destruct s as [[ms rs rg pm p flag st] l].
  destruct st, flag; reflexivity.
Qed.

Lemma InitializeModules_attached k h process_name head :
  Anchored k h process_name head ->
  InitializeModules k (attached h) =
  walk (Z.to_nat kMaxDso) (address_space k h) {| pm_process_ := h |}
       (String.append "app:" process_name) head 0 (discovering h).
Proof.
  intros (Hname & d & Hdebug & Hd & Hhead).
  unfold InitializeModules. run.
  rewrite Hname, Hdebug.
  destruct (Z.eqb_spec d 0) as [|_]; [contradiction|].
  rewrite Hhead. reflexivity.
Qed.

Lemma InitializeModules_prerequisite k h :
  PrerequisiteFails k h ->
  exists message,
    InitializeModules k (attached h) = Returns tt (logged message (discovering h)).
Proof.
  intros Hfail. unfold InitializeModules. run.
  destruct (ZX_PROP_NAME k h) as [process_name|] eqn:Hname;
    [|eexists; reflexivity].
  destruct (ZX_PROP_PROCESS_DEBUG_ADDR k h) as [d|] eqn:Hdebug;
    [|eexists; reflexivity].
  destruct (Z.eqb_spec d 0) as [->|Hd]; [eexists; reflexivity|].
  destruct (ReadWord (address_space k h) (wrap (d + k_r_debug_map_offset)))
    eqn:Hhead; [|eexists; reflexivity].
  destruct Hfail as [H|[H|[H|(d' & H & Hread)]]]; congruence.
Qed.

(** Whatever the target looks like, discovery returns, with the cache flag
    raised and the lifecycle state untouched. *)
Lemma InitializeModules_returns k s :
  initialized_modules_ (this s) = false -> modules_ (this s) = [] ->
  (process_memory_ (this s) <> None) ->
  exists ns stop pm app_name,
    InitializeModules k s =
    Returns tt (stopped stop
                  (append_modules pm app_name
                     {| this := set_initialized_modules_ true (this s);
                        log := log s |} ns)) /\
    Z.of_nat (List.length ns) < kMaxDso.
Proof.
  intros Hflag Hmodules Hpm.
  destruct s as [[ms rs rg [pm|] p flag st] l]; cbn in Hflag, Hmodules, Hpm;
    [clear Hpm|contradiction].
  subst flag ms. unfold InitializeModules. run.
  destruct (ZX_PROP_NAME k p) as [process_name|].
  2:{ exists [], (Some "zx_object_get_property ZX_PROP_NAME"), pm, "".
      split; [reflexivity|simpl; unfold kMaxDso; lia]. }
  destruct (ZX_PROP_PROCESS_DEBUG_ADDR k p) as [d|].
  2:{ exists [], (Some "zx_object_get_property ZX_PROP_PROCESS_DEBUG_ADDR"), pm, "".
      split; [reflexivity|simpl; unfold kMaxDso; lia]. }
  destruct (d =? 0).
  { exists [], (Some "zx_object_get_property ZX_PROP_PROCESS_DEBUG_ADDR"), pm, "".
    split; [reflexivity|simpl; unfold kMaxDso; lia]. }
  destruct (ReadWord _ _) as [head|].
  2:{ exists [], (Some "read link_map"), pm, "".
      split; [reflexivity|simpl; unfold kMaxDso; lia]. }
  match goal with
  | |- context [walk ?f ?m ?p ?a ?hd 0 ?st] =>
    destruct (walk_result m p a f hd 0 st) as (ns & b & stop & _ & Hlen & ->)
  end.
  - unfold kMaxDso. lia.
  - unfold kMaxDso. lia.
  - exists ns, stop, pm, (String.append "app:" process_name).
    split; [reflexivity|lia].
Qed.

Lemma stopped_frame stop s :
  this (stopped stop s) = this s.
Proof. destruct stop; reflexivity. Qed.

Lemma Modules_cached k s :
  initialized_ (this s) = Valid -> initialized_modules_ (this s) = true ->
  Modules k s = Returns (modules_ (this s)) s.
Proof. intros H1 H2. rewrite Modules_unfold, H1, H2. reflexivity. Qed.
End DiscoveryFacts.

Section Claims.
Context {abi : LinkAbi}.

Lemma Modules_attached k h process_name head s' :
  Anchored k h process_name head ->
  walk (Z.to_nat kMaxDso) (address_space k h) {| pm_process_ := h |}
       (String.append "app:" process_name) head 0 (discovering h)
  = Returns tt s' ->
  Modules k (attached h) = Returns (modules_ (this s')) s'.
Proof.
  intros Hanchor Hwalk. rewrite Modules_unfold.
  change (initialized_ (this (attached h))) with Valid.
  change (initialized_modules_ (this (attached h))) with false.
  cbv iota.
  rewrite (InitializeModules_attached k h process_name head Hanchor), Hwalk.
  reflexivity.
Qed.

Lemma modules_discovering pm app_name stop h ns :
  modules_ (this (stopped stop (append_modules pm app_name (discovering h) ns)))
  = descriptors app_name 0 ns.
Proof. rewrite stopped_frame, modules_append_modules. reflexivity. Qed.

Lemma readers_discovering pm app_name stop h ns :
  module_readers_
    (this (stopped stop (append_modules pm app_name (discovering h) ns)))
  = readers_of 0 ns.
Proof.
  rewrite stopped_frame.
  destruct (readers_append_modules pm app_name ns (discovering h)) as [-> _].
  reflexivity.
Qed.

Lemma Modules_attached_stopped k h process_name head stop ns :
  Anchored k h process_name head ->
  walk (Z.to_nat kMaxDso) (address_space k h) {| pm_process_ := h |}
       (String.append "app:" process_name) head 0 (discovering h)
  = Returns tt (stopped stop
                  (append_modules {| pm_process_ := h |}
                     (String.append "app:" process_name) (discovering h) ns)) ->
  Modules k (attached h) =
  Returns (descriptors (String.append "app:" process_name) 0 ns)
          (stopped stop
             (append_modules {| pm_process_ := h |}
                (String.append "app:" process_name) (discovering h) ns)).
Proof.
  intros Hanchor Hwalk.
  rewrite (Modules_attached k h process_name head _ Hanchor Hwalk).
  now rewrite modules_discovering.
Qed.

(** C1 (amended): for every valid link-record chain of length N,
    [Modules()] returns the descriptors of its first [kMaxDso - 1 = 999]
    nodes in traversal order, each named by the node's own path when that
    is non-empty and by the fallback name otherwise; so it returns exactly
    N descriptors when [N < kMaxDso]. *)
Theorem valid_chain_modules k h process_name head ns :
  Anchored k h process_name head ->
  ValidChain (address_space k h) head ns ->
  exists ms s',
    Modules k (attached h) = Returns ms s' /\
    ms = descriptors (String.append "app:" process_name) 0
                     (firstn (Z.to_nat (kMaxDso - 1)) ns) /\
    module_readers_ (this s') = readers_of 0 (firstn (Z.to_nat (kMaxDso - 1)) ns) /\
    (Z.of_nat (List.length ns) < kMaxDso ->
     ms = descriptors (String.append "app:" process_name) 0 ns /\
     List.length ms = List.length ns /\
     List.map name ms =
     List.map (display_name (String.append "app:" process_name)) ns).
Proof.
  intros Hanchor [Hpath _].
  destruct (Z_lt_le_dec (Z.of_nat (List.length ns)) kMaxDso) as [Hshort|Hlong].
  - assert (Hall : firstn (Z.to_nat (kMaxDso - 1)) ns = ns).
    { apply firstn_all2. unfold kMaxDso in *. lia. }
    rewrite Hall.
    eexists _, _. split; [|split; [|split]].
    + apply (Modules_attached_stopped k h process_name head None ns Hanchor).
      apply walk_path_null; auto. unfold kMaxDso in *. lia.
    + reflexivity.
    + apply (readers_discovering _ _ None).
    + intros _. rewrite length_descriptors, map_name_descriptors. auto.
  - eexists _, _. split; [|split; [|split]].
    + apply (Modules_attached_stopped k h process_name head
               (Some "possibly circular dso list, terminating")
               (firstn (Z.to_nat (kMaxDso - 1)) ns) Hanchor).
      apply walk_path_long with (b := 0); auto.
    + reflexivity.
    + apply (readers_discovering _ _ (Some _)).
    + lia.
Qed.

(** C2: let the loop have processed the k-1 first nodes of the chain, [ns],
    all readable and within the ceiling, and let the read of the base
    address, of the next pointer or of the name pointer fail at node k, [b];
    then [Modules()] returns exactly the k-1 descriptors of the earlier
    nodes, and nothing of node k or of what follows it. *)
Theorem broken_node_keeps_prefix k h process_name head ns b :
  Anchored k h process_name head ->
  Path (address_space k h) head ns b ->
  b <> 0 -> BrokenAt (address_space k h) b ->
  Z.of_nat (List.length ns) < kMaxDso ->
  exists ms s',
    Modules k (attached h) = Returns ms s' /\
    ms = descriptors (String.append "app:" process_name) 0 ns /\
    List.length ms = List.length ns.
Proof.
  intros Hanchor Hpath Hb Hbroken Hlen.
  set (app_name := String.append "app:" process_name).
  set (pm := {| pm_process_ := h |}).
  assert (Hwalk : exists message,
             walk (Z.to_nat kMaxDso) (address_space k h) pm app_name head 0
                  (discovering h)
             = Returns tt (logged message
                             (append_modules pm app_name (discovering h) ns))).
  { destruct (Z.eq_dec (Z.of_nat (List.length ns) + 1) kMaxDso) as [Hlast|Hbelow].
    - eexists. apply walk_path_ceiling with (b := b); auto.
      unfold kMaxDso in *. lia.
    - apply walk_path_broken with (b := b); auto; unfold kMaxDso in *; lia. }
  destruct Hwalk as [message Hwalk].
  eexists _, _. split; [|split].
  - exact (Modules_attached_stopped k h process_name head (Some message) ns
             Hanchor Hwalk).
  - reflexivity.
  - apply length_descriptors.
Qed.

(** C3: if the display-name query fails, or the anchor query fails or
    yields zero, or the read of the head pointer fails, [Modules()]
    returns the empty sequence; it returns normally, having logged one
    diagnostic. *)
Theorem failed_prerequisite_gives_no_modules k h :
  PrerequisiteFails k h ->
  exists message,
    Modules k (attached h) = Returns [] (logged message (discovering h)).
Proof.
  intros Hfail.
  destruct (InitializeModules_prerequisite k h Hfail) as [message Hinit].
  exists message. rewrite Modules_unfold.
  change (initialized_ (this (attached h))) with Valid.
  change (initialized_modules_ (this (attached h))) with false.
  cbv iota. rewrite Hinit. reflexivity.
Qed.


Lemma length_unroll cyc turns :
  cyc <> [] -> (turns <= List.length (unroll cyc turns))%nat.
Proof.
  intros Hcyc. induction turns as [|turns IH]; simpl; [lia|].
  rewrite length_app. destruct cyc; [contradiction|]. simpl. lia.
Qed.

Lemma Modules_attached_returns k h :
  exists ns stop pm app_name,
    Modules k (attached h) =
    Returns (descriptors app_name 0 ns)
            (stopped stop (append_modules pm app_name (discovering h) ns)) /\
    Z.of_nat (List.length ns) < kMaxDso.
Proof.
  destruct (InitializeModules_returns k (attached h))
    as (ns & stop & pm & app_name & Hinit & Hlen);
    [reflexivity|reflexivity|discriminate|].
  exists ns, stop, pm, app_name. split; [|assumption].
  rewrite Modules_unfold.
  change (initialized_ (this (attached h))) with Valid.
  change (initialized_modules_ (this (attached h))) with false.
  cbv iota. rewrite Hinit.
  change {| this := set_initialized_modules_ true (this (attached h));
            log := log (attached h) |} with (discovering h).
  now rewrite modules_discovering.
Qed.

Lemma InitializeModules_flags k s s' :
  InitializeModules k s = Returns tt s' ->
  initialized_modules_ (this s') = true /\
  initialized_ (this s') = initialized_ (this s).
Proof.
  destruct s as [[ms rs rg pmo p flag st] l].
  change (initialized_ (this _)) with st at 2.
  set (P := fun s' : State =>
              initialized_modules_ (this s') = true /\
              initialized_ (this s') = st).
  change (InitializeModules k
            {| this := {| modules_ := ms; module_readers_ := rs;
                          process_memory_ranges_ := rg;
                          process_memory_ := pmo; process_ := p;
                          initialized_modules_ := flag;
                          initialized_ := st |};
               log := l |} = Returns tt s' -> P s').
  unfold InitializeModules. run.
  destruct flag; [discriminate|].
  destruct ms; [|discriminate].
  destruct (ZX_PROP_NAME k p) as [process_name|];
    [|intros [= <-]; split; reflexivity].
  destruct (ZX_PROP_PROCESS_DEBUG_ADDR k p) as [d|];
    [|intros [= <-]; split; reflexivity].
  destruct (d =? 0); [intros [= <-]; split; reflexivity|].
  destruct pmo as [pm|]; [|discriminate].
  destruct (ReadWord _ _) as [head|]; [|intros [= <-]; split; reflexivity].
  match goal with
  | |- context [walk ?f ?m ?q ?a ?hd 0 ?st0] =>
    destruct (walk_result m q a f hd 0 st0) as (ns & b & stop & _ & _ & ->);
      [unfold kMaxDso; lia|unfold kMaxDso; lia|];
    destruct (append_modules_frame q a ns st0) as (H1 & H2 & _)
  end.
  intros [= <-]. unfold P. rewrite stopped_frame. split; assumption.
Qed.

(** C5: on every memory the walk returns within [kMaxDso] iterations (one
    unit of fuel each), so [Modules()] always returns; and on a readable
    list that runs into a cycle it returns the first [kMaxDso - 1]
    descriptors of the traversal, which is not the empty list. *)
Theorem discovery_terminates :
  (forall mem pm app_name map s,
     exists s', walk (Z.to_nat kMaxDso) mem pm app_name map 0 s = Returns tt s') /\
  (forall k h, exists ms s', Modules k (attached h) = Returns ms s') /\
  (forall k h process_name head pre c cyc,
     Anchored k h process_name head ->
     Path (address_space k h) head pre c ->
     Path (address_space k h) c cyc c -> cyc <> [] ->
     exists ms s',
       Modules k (attached h) = Returns ms s' /\
       ms = descriptors (String.append "app:" process_name) 0
              (firstn (Z.to_nat (kMaxDso - 1))
                      (pre ++ unroll cyc (Z.to_nat kMaxDso))) /\
       List.length ms = Z.to_nat (kMaxDso - 1) /\
       ms <> []).
Proof.
  split; [|split].
  - intros mem pm app_name map s.
    destruct (walk_result mem pm app_name (Z.to_nat kMaxDso) map 0 s)
      as (ns & b & stop & _ & _ & Hwalk); [unfold kMaxDso; lia ..|].
    eauto.
  - intros k h.
    destruct (Modules_attached_returns k h) as (ns & stop & pm & app & H & _).
    eauto.
  - intros k h process_name head pre c cyc Hanchor Hpre Hcyc Hne.
    set (traversal := pre ++ unroll cyc (Z.to_nat kMaxDso)).
    assert (Hpath : Path (address_space k h) head traversal c).
    { eapply Path_app; [eassumption|]. now apply Path_unroll. }
    assert (Hlong : kMaxDso <= Z.of_nat (List.length traversal)).
    { unfold traversal. rewrite length_app.
      pose proof (length_unroll cyc (Z.to_nat kMaxDso) Hne).
      unfold kMaxDso in *. lia. }
    assert (Hcount : List.length (firstn (Z.to_nat (kMaxDso - 1)) traversal)
                     = Z.to_nat (kMaxDso - 1)).
    { apply firstn_length_le. unfold kMaxDso in *. lia. }
    eexists _, _. split; [|split; [|split]].
    + apply (Modules_attached_stopped k h process_name head
               (Some "possibly circular dso list, terminating")
               (firstn (Z.to_nat (kMaxDso - 1)) traversal) Hanchor).
      apply walk_path_long with (b := c); auto.
    + reflexivity.
    + now rewrite length_descriptors.
    + intros Hnil. apply (f_equal (@List.length _)) in Hnil.
      rewrite length_descriptors, Hcount in Hnil. discriminate.
Qed.

(** C6: once [Modules()] has returned, the cache flag is set and every
    later call returns the same sequence and leaves the reader and the
    log as they are, whatever the target has become. *)
Theorem modules_cached_forever k1 s ms s1 :
  Modules k1 s = Returns ms s1 ->
  initialized_modules_ (this s1) = true /\
  ms = modules_ (this s1) /\
  forall k2, Modules k2 s1 = Returns ms s1.
Proof.
  rewrite Modules_unfold.
  destruct (initialized_ (this s)) eqn:Hstate; try discriminate.
  destruct (initialized_modules_ (this s)) eqn:Hflag.
  - intros [= <- <-]. split; [assumption|]. split; [reflexivity|].
    intros k2. now apply Modules_cached.
  - destruct (InitializeModules k1 s) as [[] s'| |] eqn:Hinit; try discriminate.
    intros [= <- <-].
    destruct (InitializeModules_flags k1 s s' Hinit) as [Hflag' Hstate'].
    split; [assumption|]. split; [reflexivity|].
    intros k2. apply Modules_cached; congruence.
Qed.

(** C7: in a state other than [Valid], [Modules()] trips the fatal
    assertion: it returns neither a list nor an error value. *)
Theorem Modules_requires_valid k s :
  initialized_ (this s) <> Valid -> Modules k s = Fatal.
Proof.
  intros Hstate. rewrite Modules_unfold.
  destruct (initialized_ (this s)); [reflexivity|reflexivity|contradiction].
Qed.

(** C9: the cache flag is raised before any fallible step, so a discovery
    that a failed prerequisite aborts leaves an empty, populated cache:
    every later [Modules()] returns the empty list again without
    attempting discovery, even when the prerequisite would now succeed. *)
Theorem failed_discovery_is_cached k h :
  PrerequisiteFails k h ->
  exists s1,
    Modules k (attached h) = Returns [] s1 /\
    initialized_modules_ (this s1) = true /\
    forall k2, Modules k2 s1 = Returns [] s1.
Proof.
  intros Hfail.
  destruct (InitializeModules_prerequisite k h Hfail) as [message Hinit].
  exists (logged message (discovering h)).
  assert (Hfirst : Modules k (attached h)
                   = Returns [] (logged message (discovering h))).
  { rewrite Modules_unfold.
    change (initialized_ (this (attached h))) with Valid.
    change (initialized_modules_ (this (attached h))) with false.
    cbv iota. rewrite Hinit. reflexivity. }
  split; [assumption|]. split; [reflexivity|].
  intros k2. now rewrite Modules_cached.
Qed.

(** C10: [Modules()] never returns more than [kMaxDso - 1 = 999]
    descriptors, and returns exactly that many for a clean chain of 999
    nodes or more. *)
Theorem at_most_999_modules :
  (forall k h, exists ms s',
     Modules k (attached h) = Returns ms s' /\
     Z.of_nat (List.length ms) <= kMaxDso - 1) /\
  (forall k h process_name head ns,
     Anchored k h process_name head ->
     ValidChain (address_space k h) head ns ->
     kMaxDso - 1 <= Z.of_nat (List.length ns) ->
     exists ms s',
       Modules k (attached h) = Returns ms s' /\
       Z.of_nat (List.length ms) = kMaxDso - 1).
Proof.
  split.
  - intros k h.
    destruct (Modules_attached_returns k h) as (ns & stop & pm & app & H & Hlen).
    eexists _, _. split; [exact H|]. rewrite length_descriptors. lia.
  - intros k h process_name head ns Hanchor [Hpath _] Hlen.
    destruct (Z.eq_dec (Z.of_nat (List.length ns)) (kMaxDso - 1)) as [Heq|Hne].
    + eexists _, _. split.
      * apply (Modules_attached_stopped k h process_name head None ns Hanchor).
        apply walk_path_null; auto; unfold kMaxDso in *; lia.
      * now rewrite length_descriptors.
    + eexists _, _. split.
      * apply (Modules_attached_stopped k h process_name head
                 (Some "possibly circular dso list, terminating")
                 (firstn (Z.to_nat (kMaxDso - 1)) ns) Hanchor).
        apply walk_path_long with (b := 0); auto. lia.
      * rewrite length_descriptors, firstn_length_le;
          unfold kMaxDso in *; lia.
Qed.
End Claims.

(** C8: on a reader that has not been initialized, [Initialize] moves the
    state to [Initializing], binds the handle, constructs the accessor and
    initializes it against the handle, moves the state to [Valid] and returns
    [true], for every handle; a freshly constructed reader ends up as
    [attached process]. *)
Theorem Initialize_succeeds process s :
  initialized_ (this s) = Uninitialized ->
  (exists s1, INITIALIZATION_STATE_SET_INITIALIZING s = Returns tt s1 /\
              initialized_ (this s1) = Initializing) /\
  Initialize process s =
  Returns true
    {| this := set_initialized_ Valid
                 (set_process_memory_ (Some {| pm_process_ := process |})
                    (set_process_ process (this s)));
       log := log s |} /\
  Initialize process {| this := ProcessReader_new; log := [] |} =
  Returns true (attached process).
Proof.
  destruct s as [[ms rs rg pmo p flag st] l]. simpl. intros ->.
  split; [|split].
  - eexists. split; reflexivity.
  - reflexivity.
  - reflexivity.
Qed.

(** * The properties on concrete targets *)

(** The scenario of the specification. *)
Example two_modules_names :
  option_map (List.map name)
             (returned (Modules (abi := lp64) two_modules_kernel (attached 7)))
  = Some ["/lib/libc.so"; "app:crasher"].
Proof. vm_compute. reflexivity. Qed.

Lemma valid_chain_modules_witness :
  (Anchored (abi := lp64) two_modules_kernel 7 "crasher" 0x1000 /\
   ValidChain (abi := lp64) (address_space two_modules_kernel 7) 0x1000 two_nodes) /\
  exists ms s',
    Modules (abi := lp64) two_modules_kernel (attached 7) = Returns ms s' /\
    ms = descriptors "app:crasher" 0 (firstn (Z.to_nat (kMaxDso - 1)) two_nodes) /\
    module_readers_ (this s')
    = readers_of 0 (firstn (Z.to_nat (kMaxDso - 1)) two_nodes) /\
    (Z.of_nat (List.length two_nodes) < kMaxDso ->
     ms = descriptors "app:crasher" 0 two_nodes /\
     List.length ms = List.length two_nodes /\
     List.map name ms = List.map (display_name "app:crasher") two_nodes).
Proof.
  assert (Ha : Anchored (abi := lp64) two_modules_kernel 7 "crasher" 0x1000)
    by (apply Anchoredb_sound; vm_compute; reflexivity).
  assert (Hv : ValidChain (abi := lp64) (address_space two_modules_kernel 7)
                          0x1000 two_nodes)
    by (apply ValidChainb_sound; vm_compute; reflexivity).
  split; [split; assumption|].
  exact (valid_chain_modules two_modules_kernel 7 "crasher" 0x1000 two_nodes Ha Hv).
Defined.

(** C1 as stated fails: a valid chain of 1000 nodes yields 999 descriptors. *)
Lemma long_chain_loses_a_module :
  Anchored (abi := lp64) (long_kernel 1000) 7 "crasher" 0x10000 /\
  ValidChain (abi := lp64) (address_space (long_kernel 1000) 7) 0x10000
             (long_nodes 1000) /\
  List.length (long_nodes 1000) = 1000%nat /\
  option_map (@List.length _)
             (returned (Modules (abi := lp64) (long_kernel 1000) (attached 7)))
  = Some 999%nat.
Proof.
  split; [apply Anchoredb_sound; vm_compute; reflexivity|].
  split; [apply ValidChainb_sound; vm_compute; reflexivity|].
  split; vm_compute; reflexivity.
Qed.

Lemma broken_node_keeps_prefix_witness :
  (Anchored (abi := lp64) broken_kernel 7 "crasher" 0x1000 /\
   Path (abi := lp64) (address_space broken_kernel 7) 0x1000 broken_prefix 0x2000 /\
   0x2000 <> 0 /\
   BrokenAt (abi := lp64) (address_space broken_kernel 7) 0x2000 /\
   Z.of_nat (List.length broken_prefix) < kMaxDso) /\
  exists ms s',
    Modules (abi := lp64) broken_kernel (attached 7) = Returns ms s' /\
    ms = descriptors "app:crasher" 0 broken_prefix /\
    List.length ms = List.length broken_prefix.
Proof.
  assert (Ha : Anchored (abi := lp64) broken_kernel 7 "crasher" 0x1000)
    by (apply Anchoredb_sound; vm_compute; reflexivity).
  assert (Hp : Path (abi := lp64) (address_space broken_kernel 7) 0x1000
                    broken_prefix 0x2000)
    by (apply Pathb_sound; vm_compute; reflexivity).
  assert (Hnz : 0x2000 <> 0) by discriminate.
  assert (Hb : BrokenAt (abi := lp64) (address_space broken_kernel 7) 0x2000)
    by (apply BrokenAtb_sound; vm_compute; reflexivity).
  assert (Hl : Z.of_nat (List.length broken_prefix) < kMaxDso) by reflexivity.
  split; [exact (conj Ha (conj Hp (conj Hnz (conj Hb Hl))))|].
  exact (broken_node_keeps_prefix broken_kernel 7 "crasher" 0x1000 broken_prefix
           0x2000 Ha Hp Hnz Hb Hl).
Defined.

Lemma failed_prerequisite_gives_no_modules_witness :
  PrerequisiteFails (abi := lp64) nameless_kernel 7 /\
  exists message,
    Modules (abi := lp64) nameless_kernel (attached 7)
    = Returns [] (logged message (discovering 7)).
Proof.
  assert (Hf : PrerequisiteFails (abi := lp64) nameless_kernel 7)
    by (left; reflexivity).
  split; [assumption|].
  exact (failed_prerequisite_gives_no_modules nameless_kernel 7 Hf).
Defined.


(** The failed dereference at the middle node leaves it the fallback name,
    and the node after it is listed. *)
Example middle_failure_names :
  option_map (List.map name)
             (returned (Modules (abi := lp64) middle_failure_kernel (attached 7)))
  = Some ["/lib/libc.so"; "app:crasher"; "/lib/libfdio.so"].
Proof. vm_compute. reflexivity. Qed.


(** The third node's name pointer is unmapped: the dereference fails with
    nothing stored, and the node gets the fallback name. *)
Example unnamed_module_names :
  option_map (List.map name)
             (returned (Modules (abi := lp64) unnamed_module_kernel (attached 7)))
  = Some ["/lib/libc.so"; "app:crasher"; "app:crasher"].
Proof. vm_compute. reflexivity. Qed.

Lemma discovery_terminates_witness :
  (Anchored (abi := lp64) cyclic_kernel 7 "crasher" 0x1000 /\
   Path (abi := lp64) (address_space cyclic_kernel 7) 0x1000 [] 0x1000 /\
   Path (abi := lp64) (address_space cyclic_kernel 7) 0x1000 cycle_nodes 0x1000 /\
   cycle_nodes <> []) /\
  exists ms s',
    Modules (abi := lp64) cyclic_kernel (attached 7) = Returns ms s' /\
    ms = descriptors "app:crasher" 0
           (firstn (Z.to_nat (kMaxDso - 1))
                   ([] ++ unroll cycle_nodes (Z.to_nat kMaxDso))) /\
    List.length ms = Z.to_nat (kMaxDso - 1) /\
    ms <> [].
Proof.
  assert (Ha : Anchored (abi := lp64) cyclic_kernel 7 "crasher" 0x1000)
    by (apply Anchoredb_sound; vm_compute; reflexivity).
  assert (Hpre : Path (abi := lp64) (address_space cyclic_kernel 7) 0x1000 [] 0x1000)
    by constructor.
  assert (Hcyc : Path (abi := lp64) (address_space cyclic_kernel 7) 0x1000
                      cycle_nodes 0x1000)
    by (apply Pathb_sound; vm_compute; reflexivity).
  assert (Hne : cycle_nodes <> []) by discriminate.
  split; [exact (conj Ha (conj Hpre (conj Hcyc Hne)))|].
  exact (proj2 (proj2 (discovery_terminates (abi := lp64)))
           cyclic_kernel 7 "crasher" 0x1000 [] 0x1000 cycle_nodes
           Ha Hpre Hcyc Hne).
Defined.

Example cyclic_list_is_cut :
  option_map (@List.length _)
             (returned (Modules (abi := lp64) cyclic_kernel (attached 7)))
  = Some 999%nat.
Proof. vm_compute. reflexivity. Qed.

(** The second call sees a target whose properties can no longer be read. *)
Lemma modules_cached_forever_witness :
  exists ms s1,
    Modules (abi := lp64) two_modules_kernel (attached 7) = Returns ms s1 /\
    initialized_modules_ (this s1) = true /\
    ms = modules_ (this s1) /\
    Modules (abi := lp64) nameless_kernel s1 = Returns ms s1.
Proof.
  destruct (Modules (abi := lp64) two_modules_kernel (attached 7))
    as [ms s1| |] eqn:Hfirst; [|vm_compute in Hfirst; discriminate ..].
  destruct (modules_cached_forever two_modules_kernel (attached 7) ms s1 Hfirst)
    as (Hflag & Hms & Hlater).
  exists ms, s1. exact (conj eq_refl (conj Hflag (conj Hms (Hlater nameless_kernel)))).
Defined.

Lemma Modules_requires_valid_witness :
  initialized_ (this {| this := ProcessReader_new; log := [] |}) <> Valid /\
  Modules (abi := lp64) two_modules_kernel {| this := ProcessReader_new; log := [] |}
  = Fatal.
Proof.
  assert (Hs : initialized_ (this {| this := ProcessReader_new; log := [] |}) <> Valid)
    by discriminate.
  split; [assumption|].
  exact (Modules_requires_valid two_modules_kernel _ Hs).
Defined.

Lemma Initialize_succeeds_witness :
  initialized_ (this {| this := ProcessReader_new; log := [] |}) = Uninitialized /\
  Initialize 7 {| this := ProcessReader_new; log := [] |}
  = Returns true (attached 7).
Proof.
  assert (Hs : initialized_ (this {| this := ProcessReader_new; log := [] |})
               = Uninitialized) by reflexivity.
  split; [assumption|].
  exact (proj2 (proj2 (Initialize_succeeds 7 _ Hs))).
Defined.

(** After the failed first call the target becomes healthy; the cache stays
    empty all the same. *)
Lemma failed_discovery_is_cached_witness :
  PrerequisiteFails (abi := lp64) unanchored_kernel 7 /\
  exists s1,
    Modules (abi := lp64) unanchored_kernel (attached 7) = Returns [] s1 /\
    initialized_modules_ (this s1) = true /\
    Modules (abi := lp64) two_modules_kernel s1 = Returns [] s1.
Proof.
  assert (Hf : PrerequisiteFails (abi := lp64) unanchored_kernel 7)
    by (right; right; left; reflexivity).
  split; [assumption|].
  destruct (failed_discovery_is_cached unanchored_kernel 7 Hf)
    as (s1 & Hfirst & Hflag & Hlater).
  exists s1. exact (conj Hfirst (conj Hflag (Hlater two_modules_kernel))).
Defined.

Lemma at_most_999_modules_witness :
  (Anchored (abi := lp64) (long_kernel 1000) 7 "crasher" 0x10000 /\
   ValidChain (abi := lp64) (address_space (long_kernel 1000) 7) 0x10000
              (long_nodes 1000) /\
   kMaxDso - 1 <= Z.of_nat (List.length (long_nodes 1000))) /\
  exists ms s',
    Modules (abi := lp64) (long_kernel 1000) (attached 7) = Returns ms s' /\
    Z.of_nat (List.length ms) = kMaxDso - 1.
Proof.
  assert (Ha : Anchored (abi := lp64) (long_kernel 1000) 7 "crasher" 0x10000)
    by (apply Anchoredb_sound; vm_compute; reflexivity).
  assert (Hv : ValidChain (abi := lp64) (address_space (long_kernel 1000) 7)
                          0x10000 (long_nodes 1000))
    by (apply ValidChainb_sound; vm_compute; reflexivity).
  assert (Hl : kMaxDso - 1 <= Z.of_nat (List.length (long_nodes 1000)))
    by (vm_compute; discriminate).
  split; [exact (conj Ha (conj Hv Hl))|].
  exact (proj2 (at_most_999_modules (abi := lp64))
           (long_kernel 1000) 7 "crasher" 0x10000 (long_nodes 1000) Ha Hv Hl).
Defined.

(** * Further properties of discovery *)

Section Shape.
Context {abi : LinkAbi}.

Lemma prerequisites_decide k h :
  PrerequisiteFails k h \/ exists process_name head, Anchored k h process_name head.
Proof.
  unfold PrerequisiteFails, Anchored.
  destruct (ZX_PROP_NAME k h) as [process_name|]; [|auto].
  destruct (ZX_PROP_PROCESS_DEBUG_ADDR k h) as [d|]; [|auto].
  destruct (Z.eq_dec d 0) as [->|Hd]; [auto|].
  destruct (ReadWord (address_space k h) (wrap (d + k_r_debug_map_offset)))
    as [head|] eqn:Hhead.
  - right. exists process_name, head. split; [reflexivity|]. exists d. auto.
  - left. right. right. right. exists d. auto.
Qed.

Lemma Modules_prerequisite k h :
  PrerequisiteFails k h ->
  exists message,
    Modules k (attached h) = Returns [] (logged message (discovering h)).
Proof.
  intros Hfail.
  destruct (InitializeModules_prerequisite k h Hfail) as [message Hinit].
  exists message. rewrite Modules_unfold.
  change (initialized_ (this (attached h))) with Valid.
  change (initialized_modules_ (this (attached h))) with false.
  cbv iota. rewrite Hinit. reflexivity.
Qed.

(** Every first call either aborts on a prerequisite or walks a readable
    path that starts at the head pointer. *)
Lemma Modules_attached_shape k h :
  (PrerequisiteFails k h /\
   exists message,
     Modules k (attached h) = Returns [] (logged message (discovering h))) \/
  (exists process_name head ns b stop,
     Anchored k h process_name head /\
     Path (address_space k h) head ns b /\
     Z.of_nat (List.length ns) < kMaxDso /\
     Modules k (attached h) =
     Returns (descriptors (String.append "app:" process_name) 0 ns)
             (stopped stop
                (append_modules {| pm_process_ := h |}
                   (String.append "app:" process_name) (discovering h) ns))).
Proof.
  destruct (prerequisites_decide k h) as [Hfail|(process_name & head & Hanchor)].
  - left. split; [assumption|]. now apply Modules_prerequisite.
  - right.
    destruct (walk_result (address_space k h) {| pm_process_ := h |}
                (String.append "app:" process_name) (Z.to_nat kMaxDso) head 0
                (discovering h))
      as (ns & b & stop & Hpath & Hlen & Hwalk); [unfold kMaxDso; lia ..|].
    exists process_name, head, ns, b, stop.
    split; [assumption|]. split; [assumption|]. split; [lia|].
    now apply (Modules_attached_stopped k h process_name head stop ns).
Qed.

Lemma ranges_discovering pm app_name stop h ns :
  process_memory_ranges_
    (this (stopped stop (append_modules pm app_name (discovering h) ns)))
  = repeat {| range_memory_ := pm; range_is_64_bit_ := true |} (List.length ns).
Proof.
  rewrite stopped_frame.
  destruct (readers_append_modules pm app_name ns (discovering h)) as [_ ->].
  reflexivity.
Qed.

Lemma log_append_modules pm app_name ns : forall s,
  log (append_modules pm app_name s ns) = log s ++ name_diagnostics ns.
Proof.
  induction ns as [|n ns IH]; intros s.
  - simpl. now rewrite app_nil_r.
  - rewrite append_modules_cons, IH. unfold name_diagnostics. simpl.
    destruct (n_name_read n); simpl; [reflexivity|].
    now rewrite <- app_assoc.
Qed.

Lemma log_stopped stop s :
  log (stopped stop s) =
  log s ++ match stop with Some message => [message] | None => [] end.
Proof. destruct stop; simpl; [reflexivity|now rewrite app_nil_r]. Qed.

Lemma readers_of_cons first n ns :
  readers_of first (n :: ns) =
  {| elf_memory_ := first; elf_ehdr_address_ := n_base n |}
  :: readers_of (S first) ns.
Proof. reflexivity. Qed.

Lemma nth_error_readers_of ns : forall first j n,
  nth_error ns j = Some n ->
  nth_error (readers_of first ns) j =
  Some {| elf_memory_ := (first + j)%nat; elf_ehdr_address_ := n_base n |}.
Proof.
  induction ns as [|n0 ns IH]; intros first j n H.
  - destruct j; discriminate.
  - rewrite readers_of_cons. destruct j as [|j]; simpl in *.
    + injection H as ->. now rewrite Nat.add_0_r.
    + rewrite (IH _ _ _ H). now rewrite Nat.add_succ_r.
Qed.

Lemma length_readers_of first ns :
  List.length (readers_of first ns) = List.length ns.
Proof.
  unfold readers_of.
  now rewrite length_map, length_combine, length_seq, Nat.min_id.
Qed.

Lemma nth_error_descriptors_inv app_name ns first j m :
  nth_error (descriptors app_name first ns) j = Some m ->
  exists n, nth_error ns j = Some n /\
            m = {| name := display_name app_name n; reader := (first + j)%nat |}.
Proof.
  intros H. destruct (nth_error ns j) as [n|] eqn:Hn.
  - rewrite (nth_error_descriptors app_name ns first j n Hn) in H.
    injection H as <-. eauto.
  - apply nth_error_None in Hn.
    assert (Hnone : nth_error (descriptors app_name first ns) j = None)
      by (apply nth_error_None; now rewrite length_descriptors).
    congruence.
Qed.

Lemma display_name_not_empty app_name n :
  app_name <> "" -> display_name app_name n <> "".
Proof.
  intros Happ. unfold display_name.
  destruct (n_dsoname n) as [|c dsoname]; simpl; [assumption|discriminate].
Qed.
End Shape.

Section Extras.
Context {abi : LinkAbi}.

(** X1: after the first [Modules()] the three collections have the same
    length; the j-th descriptor points at the j-th module reader, and that
    reader at the j-th memory range, which is bound to the reader's own
    accessor in 64-bit mode. *)
Theorem modules_reference_their_readers k h :
  exists ms s',
    Modules k (attached h) = Returns ms s' /\
    List.length (module_readers_ (this s')) = List.length ms /\
    List.length (process_memory_ranges_ (this s')) = List.length ms /\
    forall j m, nth_error ms j = Some m ->
      reader m = j /\
      exists rd,
        nth_error (module_readers_ (this s')) (reader m) = Some rd /\
        elf_memory_ rd = j /\
        nth_error (process_memory_ranges_ (this s')) (elf_memory_ rd)
        = Some (range_of h).
Proof.
  destruct (Modules_attached_shape k h)
    as [[_ [message H]]|(process_name & head & ns & b & stop & _ & _ & _ & H)].
  - eexists _, _. split; [exact H|]. split; [reflexivity|]. split; [reflexivity|].
    intros [|j] m Hm; discriminate.
  - eexists _, _. split; [exact H|].
    rewrite readers_discovering, ranges_discovering.
    rewrite length_readers_of, repeat_length, length_descriptors.
    split; [reflexivity|]. split; [reflexivity|].
    intros j m Hm.
    apply nth_error_descriptors_inv in Hm. destruct Hm as (n & Hn & ->).
    simpl. split; [reflexivity|].
    eexists. split; [apply nth_error_readers_of; eassumption|].
    simpl. split; [reflexivity|].
    apply nth_error_repeat. apply nth_error_Some. congruence.
Qed.

(** X2: a failed prerequisite is reported by exactly one diagnostic, that of
    the first step that fails: the name query, then the anchor query (failed
    or zero), then the read of the head pointer. *)
Theorem prerequisite_diagnostics k h :
  (ZX_PROP_NAME k h = None ->
   Modules k (attached h) =
   Returns [] (logged "zx_object_get_property ZX_PROP_NAME" (discovering h))) /\
  (forall process_name,
     ZX_PROP_NAME k h = Some process_name ->
     ZX_PROP_PROCESS_DEBUG_ADDR k h = None \/
     ZX_PROP_PROCESS_DEBUG_ADDR k h = Some 0 ->
     Modules k (attached h) =
     Returns [] (logged "zx_object_get_property ZX_PROP_PROCESS_DEBUG_ADDR"
                        (discovering h))) /\
  (forall process_name debug_address,
     ZX_PROP_NAME k h = Some process_name ->
     ZX_PROP_PROCESS_DEBUG_ADDR k h = Some debug_address ->
     debug_address <> 0 ->
     ReadWord (address_space k h) (wrap (debug_address + k_r_debug_map_offset))
     = None ->
     Modules k (attached h) = Returns [] (logged "read link_map" (discovering h))).
Proof.
  assert (Hstart : Modules k (attached h) =
                   match InitializeModules k (attached h) with
                   | Returns _ s' => Returns (modules_ (this s')) s'
                   | Fatal => Fatal
                   | OutOfFuel => OutOfFuel
                   end) by exact (Modules_unfold k (attached h)).
  rewrite Hstart. clear Hstart. unfold InitializeModules. run.
  split; [|split].
  - intros ->. reflexivity.
  - intros process_name -> [-> | ->]; reflexivity.
  - intros process_name d -> -> Hd Hread.
    destruct (Z.eqb_spec d 0) as [|_]; [contradiction|].
    run. rewrite Hread. reflexivity.
Qed.

Lemma walk_broken_message mem pm app_name fuel map i s :
  map <> 0 -> i + 1 < kMaxDso -> BrokenAt mem map ->
  walk (S fuel) mem pm app_name map i s =
  Returns tt (logged (failed_read_message mem map) s).
Proof.
  intros Hmap Hi Hbroken. simpl. unfold failed_read_message.
  destruct (Z.eqb_spec map 0) as [|_]; [contradiction|].
  destruct (Z.geb_spec (i + 1) kMaxDso) as [?|_]; [lia|].
  destruct (ReadWord mem (wrap (map + k_link_map_addr_offset))) eqn:Ebase;
    [|reflexivity].
  destruct (ReadWord mem (wrap (map + k_link_map_next_offset))) eqn:Enext;
    [|reflexivity].
  destruct (ReadWord mem (wrap (map + k_link_map_name_offset))) eqn:Ename;
    [|reflexivity].
  destruct Hbroken as [H|[H|H]]; congruence.
Qed.

(** X3: when the walk ends at a null successor pointer below the ceiling,
    the log holds one ["ReadCString name"] per node whose path string could
    not be read and nothing else; a fully readable chain is walked
    silently. *)
Theorem null_terminated_walk_log k h process_name head ns :
  Anchored k h process_name head ->
  Path (address_space k h) head ns 0 ->
  Z.of_nat (List.length ns) < kMaxDso ->
  exists ms s',
    Modules k (attached h) = Returns ms s' /\
    log s' = name_diagnostics ns /\
    (Forall (fun n => n_name_read n = true) ns -> log s' = []).
Proof.
  intros Hanchor Hpath Hlen.
  eexists _, _. split; [|split].
  - apply (Modules_attached_stopped k h process_name head None ns Hanchor).
    apply walk_path_null; auto. unfold kMaxDso in *. lia.
  - simpl. now rewrite log_append_modules.
  - intros Hall. simpl. now rewrite append_modules_log.
Qed.

(** X4: when a field read fails at a node below the ceiling, the log ends
    with the diagnostic of the first failing read (base, then next, then
    name address), after the diagnostics of the earlier nodes. *)
Theorem broken_node_diagnostic k h process_name head ns b :
  Anchored k h process_name head ->
  Path (address_space k h) head ns b ->
  b <> 0 -> BrokenAt (address_space k h) b ->
  Z.of_nat (List.length ns) + 1 < kMaxDso ->
  exists ms s',
    Modules k (attached h) = Returns ms s' /\
    log s' = name_diagnostics ns ++ [failed_read_message (address_space k h) b].
Proof.
  intros Hanchor Hpath Hb Hbroken Hlen.
  eexists _, _. split.
  - apply (Modules_attached_stopped k h process_name head
             (Some (failed_read_message (address_space k h) b)) ns Hanchor).
    replace (Z.to_nat kMaxDso)
      with (List.length ns + S (Z.to_nat kMaxDso - S (List.length ns)))%nat
      by (unfold kMaxDso in *; lia).
    rewrite (walk_path _ _ _ head ns b Hpath) by lia.
    apply walk_broken_message; auto; lia.
  - simpl. now rewrite log_append_modules.
Qed.

(** X5: when [kMaxDso - 1] nodes have been processed and the successor
    pointer is still not null, the walk stops with the diagnostic
    ["possibly circular dso list, terminating"], whether or not the list is
    circular. *)
Theorem ceiling_diagnostic k h process_name head ns b :
  Anchored k h process_name head ->
  Path (address_space k h) head ns b ->
  b <> 0 ->
  Z.of_nat (List.length ns) = kMaxDso - 1 ->
  exists ms s',
    Modules k (attached h) = Returns ms s' /\
    List.length ms = List.length ns /\
    log s' = name_diagnostics ns ++ ["possibly circular dso list, terminating"].
Proof.
  intros Hanchor Hpath Hb Hlen.
  eexists _, _. split; [|split].
  - apply (Modules_attached_stopped k h process_name head
             (Some "possibly circular dso list, terminating") ns Hanchor).
    apply walk_path_ceiling with (b := b); auto; unfold kMaxDso in *; lia.
  - apply length_descriptors.
  - simpl. now rewrite log_append_modules.
Qed.
Lemma InitializeModules_frame k s s' :
  InitializeModules k s = Returns tt s' ->
  process_ (this s') = process_ (this s) /\
  process_memory_ (this s') = process_memory_ (this s) /\
  exists more, log s' = log s ++ more.
Proof.
  destruct s as [[ms rs rg pmo p flag st] l].
  change (process_ (this _)) with p at 2.
  change (process_memory_ (this _)) with pmo at 2.
  change (log {| this := _; log := l |}) with l.
  set (P := fun s' : State =>
              process_ (this s') = p /\
              process_memory_ (this s') = pmo /\
              exists more, log s' = l ++ more).
  change (InitializeModules k
            {| this := {| modules_ := ms; module_readers_ := rs;
                          process_memory_ranges_ := rg;
                          process_memory_ := pmo; process_ := p;
                          initialized_modules_ := flag;
                          initialized_ := st |};
               log := l |} = Returns tt s' -> P s').
  unfold InitializeModules. run.
  destruct flag; [discriminate|].
  destruct ms; [|discriminate].
  destruct (ZX_PROP_NAME k p) as [process_name|];
    [|intros [= <-]; repeat split; eexists; reflexivity].
  destruct (ZX_PROP_PROCESS_DEBUG_ADDR k p) as [d|];
    [|intros [= <-]; repeat split; eexists; reflexivity].
  destruct (d =? 0); [intros [= <-]; repeat split; eexists; reflexivity|].
  destruct pmo as [pm|]; [|discriminate].
  destruct (ReadWord _ _) as [head|];
    [|intros [= <-]; repeat split; eexists; reflexivity].
  match goal with
  | |- context [walk ?f ?m ?q ?a ?hd 0 ?st0] =>
    destruct (walk_result m q a f hd 0 st0) as (ns & b & stop & _ & _ & ->);
      [unfold kMaxDso; lia|unfold kMaxDso; lia|];
    destruct (append_modules_frame q a ns st0) as (_ & _ & H3 & H4)
  end.
  intros [= <-]. unfold P. rewrite stopped_frame.
  split; [assumption|]. split; [assumption|].
  eexists. rewrite log_stopped, log_append_modules, <- app_assoc. reflexivity.
Qed.

(** X6: a call of [Modules()] that returns leaves the reader valid and bound
    to the same process handle and the same accessor; the log only grows. *)
Theorem Modules_keeps_binding k s ms s1 :
  Modules k s = Returns ms s1 ->
  initialized_ (this s1) = Valid /\
  process_ (this s1) = process_ (this s) /\
  process_memory_ (this s1) = process_memory_ (this s) /\
  exists more, log s1 = log s ++ more.
Proof.
  rewrite Modules_unfold.
  destruct (initialized_ (this s)) eqn:Hstate; try discriminate.
  destruct (initialized_modules_ (this s)) eqn:Hflag.
  - intros [= <- <-]. repeat split; [assumption|].
    exists []. now rewrite app_nil_r.
  - destruct (InitializeModules k s) as [[] s'| |] eqn:Hinit; try discriminate.
    intros [= <- <-].
    destruct (InitializeModules_flags k s s' Hinit) as [_ Hstate'].
    destruct (InitializeModules_frame k s s' Hinit) as (Hp & Hpm & Hlog).
    split; [congruence|]. split; [assumption|]. split; assumption.
Qed.

Lemma ReadWord_ext mem1 mem2 :
  (forall address size, Read mem1 address size = Read mem2 address size) ->
  forall address, ReadWord mem1 address = ReadWord mem2 address.
Proof. intros H address. unfold ReadWord. now rewrite H. Qed.

Lemma walk_ext mem1 mem2 pm app_name :
  (forall address size, Read mem1 address size = Read mem2 address size) ->
  (forall address, ReadCString mem1 address = ReadCString mem2 address) ->
  forall fuel map i s,
    walk fuel mem1 pm app_name map i s = walk fuel mem2 pm app_name map i s.
Proof.
  intros Hread Hstr. induction fuel as [|fuel IH]; intros map i s; [reflexivity|].
  simpl. rewrite !(ReadWord_ext mem1 mem2 Hread).
  destruct (map =? 0); [reflexivity|].
  destruct (i + 1 >=? kMaxDso); [reflexivity|].
  destruct (ReadWord mem2 (wrap (map + k_link_map_addr_offset))); [|reflexivity].
  destruct (ReadWord mem2 (wrap (map + k_link_map_next_offset))); [|reflexivity].
  destruct (ReadWord mem2 (wrap (map + k_link_map_name_offset))); [|reflexivity].
  rewrite Hstr. destruct (ReadCString mem2 z1) as [[|] dsoname]; run; apply IH.
Qed.

(** X7: discovery looks at nothing but the process behind the reader's own
    handle: two kernels that show the same name, anchor and memory for that
    handle give the same modules, the same reader state and the same log,
    however they differ on other handles. *)
Theorem Modules_local k1 k2 h :
  same_target k1 k2 h ->
  Modules k1 (attached h) = Modules k2 (attached h).
Proof.
  intros (Hname & Hdebug & Hread & Hstr).
  assert (Hinit : InitializeModules k1 (attached h)
                  = InitializeModules k2 (attached h)).
  { unfold InitializeModules. run. rewrite Hname, Hdebug.
    destruct (ZX_PROP_NAME k2 h) as [process_name|]; [|reflexivity].
    destruct (ZX_PROP_PROCESS_DEBUG_ADDR k2 h) as [d|]; [|reflexivity].
    destruct (d =? 0); [reflexivity|]. run.
    rewrite (ReadWord_ext _ _ Hread).
    destruct (ReadWord _ _) as [head|]; [|reflexivity].
    apply walk_ext; assumption. }
  rewrite !Modules_unfold. rewrite Hinit. reflexivity.
Qed.

Lemma Forall_descriptors_named app_name ns : forall first,
  app_name <> "" ->
  Forall (fun m => name m <> "") (descriptors app_name first ns).
Proof.
  induction ns as [|n ns IH]; intros first Happ; simpl; constructor.
  - simpl. now apply display_name_not_empty.
  - now apply IH.
Qed.

(** X8: no descriptor returned by the first [Modules()] has an empty name. *)
Theorem module_names_not_empty k h :
  exists ms s',
    Modules k (attached h) = Returns ms s' /\
    Forall (fun m => name m <> "") ms.
Proof.
  destruct (Modules_attached_shape k h)
    as [[_ [message H]]|(process_name & head & ns & b & stop & _ & _ & _ & H)].
  - eexists _, _. split; [exact H|constructor].
  - eexists _, _. split; [exact H|].
    apply Forall_descriptors_named. discriminate.
Qed.

(** X9: the first [Modules()] returns nothing but the descriptors of nodes
    that are readable and reachable from the head pointer through successor
    pointers, in that order, and the module reader of each is rooted at the
    base address read from its node. *)
Theorem modules_come_from_readable_nodes k h :
  exists ms s',
    Modules k (attached h) = Returns ms s' /\
    (ms = [] \/
     exists process_name head ns b,
       Anchored k h process_name head /\
       Path (address_space k h) head ns b /\
       ms = descriptors (String.append "app:" process_name) 0 ns /\
       module_readers_ (this s') = readers_of 0 ns).
Proof.
  destruct (Modules_attached_shape k h)
    as [[_ [message H]]|(process_name & head & ns & b & stop & Ha & Hp & _ & H)].
  - eexists _, _. split; [exact H|]. left. reflexivity.
  - eexists _, _. split; [exact H|]. right.
    exists process_name, head, ns, b.
    split; [assumption|]. split; [assumption|]. split; [reflexivity|].
    apply readers_discovering.
Qed.
End Extras.

(** * The further properties on concrete targets *)

Lemma prerequisite_diagnostics_witness :
  (ZX_PROP_NAME nameless_kernel 7 = None /\
   Modules (abi := lp64) nameless_kernel (attached 7) =
   Returns [] (logged "zx_object_get_property ZX_PROP_NAME" (discovering 7))) /\
  (ZX_PROP_PROCESS_DEBUG_ADDR unanchored_kernel 7 = Some 0 /\
   Modules (abi := lp64) unanchored_kernel (attached 7) =
   Returns [] (logged "zx_object_get_property ZX_PROP_PROCESS_DEBUG_ADDR"
                      (discovering 7))) /\
  (ReadWord (address_space headless_kernel 7)
            (wrap (0x9000 + k_r_debug_map_offset (LinkAbi := lp64))) = None /\
   Modules (abi := lp64) headless_kernel (attached 7) =
   Returns [] (logged "read link_map" (discovering 7))).
Proof.
  destruct (prerequisite_diagnostics (abi := lp64) nameless_kernel 7)
    as (Hname & _ & _).
  destruct (prerequisite_diagnostics (abi := lp64) unanchored_kernel 7)
    as (_ & Hanchor & _).
  destruct (prerequisite_diagnostics (abi := lp64) headless_kernel 7)
    as (_ & _ & Hhead).
  assert (H1 : ZX_PROP_NAME nameless_kernel 7 = None) by reflexivity.
  assert (H2 : ZX_PROP_PROCESS_DEBUG_ADDR unanchored_kernel 7 = Some 0)
    by reflexivity.
  assert (H3 : ReadWord (address_space headless_kernel 7)
                 (wrap (0x9000 + k_r_debug_map_offset (LinkAbi := lp64))) = None)
    by (vm_compute; reflexivity).
  assert (H4 : 0x9000 <> 0) by discriminate.
  split; [exact (conj H1 (Hname H1))|].
  split; [exact (conj H2 (Hanchor "crasher" eq_refl (or_intror H2)))|].
  exact (conj H3 (Hhead "crasher" 0x9000 eq_refl eq_refl H4 H3)).
Defined.

Lemma null_terminated_walk_log_witness :
  (Anchored (abi := lp64) unnamed_module_kernel 7 "crasher" 0x1000 /\
   Path (abi := lp64) (address_space unnamed_module_kernel 7) 0x1000
        unnamed_module_nodes 0 /\
   Z.of_nat (List.length unnamed_module_nodes) < kMaxDso) /\
  exists ms s',
    Modules (abi := lp64) unnamed_module_kernel (attached 7) = Returns ms s' /\
    log s' = name_diagnostics unnamed_module_nodes /\
    (Forall (fun n => n_name_read n = true) unnamed_module_nodes -> log s' = []).
Proof.
  assert (Ha : Anchored (abi := lp64) unnamed_module_kernel 7 "crasher" 0x1000)
    by (apply Anchoredb_sound; vm_compute; reflexivity).
  assert (Hp : Path (abi := lp64) (address_space unnamed_module_kernel 7) 0x1000
                    unnamed_module_nodes 0)
    by (apply Pathb_sound; vm_compute; reflexivity).
  assert (Hl : Z.of_nat (List.length unnamed_module_nodes) < kMaxDso) by reflexivity.
  split; [exact (conj Ha (conj Hp Hl))|].
  exact (null_terminated_walk_log unnamed_module_kernel 7 "crasher" 0x1000
           unnamed_module_nodes Ha Hp Hl).
Defined.

Example unnamed_module_log :
  name_diagnostics unnamed_module_nodes = ["ReadCString name"].
Proof. reflexivity. Qed.

Lemma broken_node_diagnostic_witness :
  (Anchored (abi := lp64) broken_kernel 7 "crasher" 0x1000 /\
   Path (abi := lp64) (address_space broken_kernel 7) 0x1000 broken_prefix 0x2000 /\
   0x2000 <> 0 /\
   BrokenAt (abi := lp64) (address_space broken_kernel 7) 0x2000 /\
   Z.of_nat (List.length broken_prefix) + 1 < kMaxDso) /\
  exists ms s',
    Modules (abi := lp64) broken_kernel (attached 7) = Returns ms s' /\
    log s' = name_diagnostics broken_prefix ++
             [failed_read_message (abi := lp64) (address_space broken_kernel 7)
                                  0x2000].
Proof.
  assert (Ha : Anchored (abi := lp64) broken_kernel 7 "crasher" 0x1000)
    by (apply Anchoredb_sound; vm_compute; reflexivity).
  assert (Hp : Path (abi := lp64) (address_space broken_kernel 7) 0x1000
                    broken_prefix 0x2000)
    by (apply Pathb_sound; vm_compute; reflexivity).
  assert (Hnz : 0x2000 <> 0) by discriminate.
  assert (Hb : BrokenAt (abi := lp64) (address_space broken_kernel 7) 0x2000)
    by (apply BrokenAtb_sound; vm_compute; reflexivity).
  assert (Hl : Z.of_nat (List.length broken_prefix) + 1 < kMaxDso) by reflexivity.
  split; [exact (conj Ha (conj Hp (conj Hnz (conj Hb Hl))))|].
  exact (broken_node_diagnostic broken_kernel 7 "crasher" 0x1000 broken_prefix
           0x2000 Ha Hp Hnz Hb Hl).
Defined.

Example broken_node_log :
  name_diagnostics broken_prefix ++
  [failed_read_message (abi := lp64) (address_space broken_kernel 7) 0x2000]
  = ["Read next"].
Proof. vm_compute. reflexivity. Qed.

(** A clean chain of 1000 nodes, not circular, is cut with the diagnostic. *)
Lemma ceiling_diagnostic_witness :
  (Anchored (abi := lp64) (long_kernel 1000) 7 "crasher" 0x10000 /\
   Path (abi := lp64) (address_space (long_kernel 1000) 7) 0x10000
        (firstn 999 (long_nodes 1000)) (0x10000 + 32 * 999) /\
   0x10000 + 32 * 999 <> 0 /\
   Z.of_nat (List.length (firstn 999 (long_nodes 1000))) = kMaxDso - 1) /\
  exists ms s',
    Modules (abi := lp64) (long_kernel 1000) (attached 7) = Returns ms s' /\
    List.length ms = List.length (firstn 999 (long_nodes 1000)) /\
    log s' = name_diagnostics (firstn 999 (long_nodes 1000)) ++
             ["possibly circular dso list, terminating"].
Proof.
  assert (Ha : Anchored (abi := lp64) (long_kernel 1000) 7 "crasher" 0x10000)
    by (apply Anchoredb_sound; vm_compute; reflexivity).
  assert (Hp : Path (abi := lp64) (address_space (long_kernel 1000) 7) 0x10000
                    (firstn 999 (long_nodes 1000)) (0x10000 + 32 * 999))
    by (apply Pathb_sound; vm_compute; reflexivity).
  assert (Hnz : 0x10000 + 32 * 999 <> 0) by discriminate.
  assert (Hl : Z.of_nat (List.length (firstn 999 (long_nodes 1000))) = kMaxDso - 1)
    by (vm_compute; reflexivity).
  split; [exact (conj Ha (conj Hp (conj Hnz Hl)))|].
  exact (ceiling_diagnostic (long_kernel 1000) 7 "crasher" 0x10000
           (firstn 999 (long_nodes 1000)) (0x10000 + 32 * 999) Ha Hp Hnz Hl).
Defined.

Lemma Modules_keeps_binding_witness :
  exists ms s1,
    Modules (abi := lp64) unnamed_module_kernel (attached 7) = Returns ms s1 /\
    initialized_ (this s1) = Valid /\
    process_ (this s1) = process_ (this (attached 7)) /\
    process_memory_ (this s1) = process_memory_ (this (attached 7)) /\
    exists more, log s1 = log (attached 7) ++ more.
Proof.
  destruct (Modules (abi := lp64) unnamed_module_kernel (attached 7))
    as [ms s1| |] eqn:Hfirst; [|vm_compute in Hfirst; discriminate ..].
  exists ms, s1.
  exact (conj eq_refl
           (Modules_keeps_binding unnamed_module_kernel (attached 7) ms s1 Hfirst)).
Defined.

Lemma Modules_local_witness :
  same_target two_modules_kernel crowded_kernel 7 /\
  Modules (abi := lp64) two_modules_kernel (attached 7)
  = Modules (abi := lp64) crowded_kernel (attached 7).
Proof.
  assert (Hs : same_target two_modules_kernel crowded_kernel 7).
  { split; [reflexivity|]. split; [reflexivity|].
    split; intros; reflexivity. }
  split; [assumption|].
  exact (Modules_local two_modules_kernel crowded_kernel 7 Hs).
Defined.

(** The kernels of the last witness differ on other handles. *)
Example crowded_kernel_differs :
  ZX_PROP_NAME two_modules_kernel 8 <> ZX_PROP_NAME crowded_kernel 8.
Proof. discriminate. Qed.
